(** * CyHy notification run: [extras/create_send_notifications.py]

    A shallow embedding of the notification script: the organization
    resolver ([build_notifications_org_list], [find_cyhy_parents]), the
    artifact generator adapter ([generate_notification_pdfs]) and the
    orchestration in [main], followed by the properties of the run.

    The document store is modelled by the two collections the script
    touches; the renderer, the mailer, the logging set-up and the
    filesystem the run finds are taken as parameters of the run. *)

From Stdlib Require Import ZArith Lia Ascii String.
From stdpp Require Import base list strings gmap sets pretty relations finite.

Local Open Scope Z_scope.
Local Open Scope string_scope.

(** ** The document store *)

(** A request document: only the three fields the script queries. *)
Record RequestDoc := {
  _id : string;
  report_types : list string;
  children : list string;
}.

(** A notification document: only the two fields the script queries. *)
Record NotificationDoc := {
  ticket_owner : string;
  generated_for : list string;
}.

Record DB := {
  requests : list RequestDoc;
  notifications : list NotificationDoc;
}.

#[global] Instance RequestDoc_eq_dec : EqDecision RequestDoc.
Proof. solve_decision. Defined.
#[global] Instance NotificationDoc_eq_dec : EqDecision NotificationDoc.
Proof. solve_decision. Defined.
#[global] Instance DB_eq_dec : EqDecision DB.
Proof. solve_decision. Defined.

Module Mongo.

(** [collection.distinct(field)]: the values of the field, each once, in
    order of first occurrence. *)
Definition distinct (field : NotificationDoc → string)
    (coll : list NotificationDoc) : list string :=
  remove_dups (field <$> coll).

(** [find({"_id": {"$in": ids}, "report_types": rt})]: equality on an
    array field matches when the array contains the value. *)
Definition find_id_in (ids : list string) (rt : string)
    (coll : list RequestDoc) : list RequestDoc :=
  filter (λ d, _id d ∈ ids ∧ rt ∈ report_types d) coll.

(** [find({"children": org_id, "report_types": rt})]. *)
Definition find_children (org_id rt : string)
    (coll : list RequestDoc) : list RequestDoc :=
  filter (λ d, org_id ∈ children d ∧ rt ∈ report_types d) coll.

(** The two deletion filters of [main]. *)
Inductive Query :=
| GeneratedForNe (l : list string)      (* {"generated_for": {"$ne": l}} *)
| TicketOwnerNin (ids : list string).   (* {"ticket_owner": {"$nin": ids}} *)

Definition matches (q : Query) (d : NotificationDoc) : bool :=
  match q with
  | GeneratedForNe l => bool_decide (generated_for d ≠ l)
  | TicketOwnerNin ids => bool_decide (ticket_owner d ∉ ids)
  end.

(** [collection.delete_many(q)]: removes every matching document and
    reports how many were removed ([result.deleted_count]). *)
Definition delete_many (q : Query) (coll : list NotificationDoc)
    : nat * list NotificationDoc :=
  (length (List.filter (matches q) coll),
   List.filter (λ d, negb (matches q d)) coll).

End Mongo.

(** ** The organization resolver *)

(** Python raises [RecursionError] when the call stack grows past the
    interpreter's recursion limit.  The limit is the first argument of the
    recursive lookup; [None] is the raised error.  The diagnostic [print]
    calls of the two functions only write to standard output and are left
    out. *)
Fixpoint find_cyhy_parents (limit : nat) (db : DB) (org_id : string)
    : option (gset string) :=
  match limit with
  | O => None
  | S limit' =>
      foldl
        (λ acc request,
           cyhy_parents ← acc;
           rec ← find_cyhy_parents limit' db (_id request);
           Some (({[ _id request ]} ∪ cyhy_parents) ∪ rec))
        (Some ∅)
        (Mongo.find_children org_id "CYHY" (requests db))
  end.

(** The loop of [build_notifications_org_list] threads the two sets
    [notifications_to_generate] and [cyhy_parent_ids]. *)
Definition build_notifications_org_list (limit : nat) (db : DB)
    : option (gset string) :=
  let ticket_owner_ids := Mongo.distinct ticket_owner (notifications db) in
  '(notifications_to_generate, cyhy_parent_ids) ←
    foldl
      (λ acc request,
         '(to_generate, parent_ids) ← acc;
         found ← find_cyhy_parents limit db (_id request);
         Some ({[ _id request ]} ∪ to_generate, parent_ids ∪ found))
      (Some (∅, ∅))
      (Mongo.find_id_in ticket_owner_ids "CYHY" (requests db));
  Some (notifications_to_generate ∪ cyhy_parent_ids).

(** ** The run: state, collaborators and effects *)

Inductive Level := INFO | ERROR | CRITICAL.

#[global] Instance Level_eq_dec : EqDecision Level.
Proof. solve_decision. Defined.

(** Calls the script makes to the outside, in the order they are made. *)
Inductive Event :=
| BasicConfig (level : string)
| Log (level : Level) (msg : string)
| DbFromConfig (section : string)
| Mkpath (path : string)
| Chdir (path : string)
| Remove (path : string)
| Symlink (src dst : string)
| GenerateNotification (org_id : string) (final : bool) (encrypt_key : string)
| Popen (argv : list string)
| DeleteMany (q : Mongo.Query) (deleted_count : nat)
| Shutdown.

(** What the filesystem holds at a path.  A link is live when its target
    exists and dangling when it does not. *)
Inductive Entry := Absent | RegularFile | Directory | LiveLink | DanglingLink.

Inductive Errno := ENOENT | EEXIST | EISDIR.

Inductive Exn :=
| NameError (name : string)
| OSError (errno : Errno).

Inductive Outcome (A : Type) :=
| Ret (a : A)
| Raise (e : Exn).
Arguments Ret {A} a.
Arguments Raise {A} e.

Record Run := {
  store : DB;
  trace : list Event;
}.

(** What the renderer hands back next to the [was_encrypted] flag: the
    script only reads [results["notifications"]]. *)
Record Results := {
  results_notifications : list NotificationDoc;
}.

(** The collaborators of one run. *)
Record World := {
  (** [logging.basicConfig(level=...)]: [false] when it raises
      [ValueError]. *)
  basicConfig : string → bool;
  (** [current_time.strftime("%Y%m%d")]. *)
  today : string;
  (** [Config(section).report_key]. *)
  report_key : string → string;
  (** [NotificationGenerator(db, org_id, final=True,
      encrypt_key=key).generate_notification()]: the renderer reads and
      writes the store. *)
  generate_notification :
    DB → string → string → (bool * option Results) * DB;
  (** The filesystem as the run finds it: what is at a path. *)
  entry : string → Entry;
  (** [Popen(...).communicate()] and [p.returncode]. *)
  communicate : DB → (string * string) * Z;
}.

(** The module's global namespace, as far as [main] reads it: the one
    global [main] looks up that is not a function, an import or a path
    constant. *)
Record Globals := {
  cyhy_org_ids : option (list string);
}.

(** The namespace the module itself builds: its imports, [current_time],
    the three path constants and the five functions.  Nothing binds
    [cyhy_org_ids]. *)
Definition module_globals : Globals := {| cyhy_org_ids := None |}.

Record Args := {
  log_level : string;
  CYHY_DB_SECTION : string;
}.

Module RunMonad.

Definition M (A : Type) : Type := Run → Outcome A * Run.

Definition ret {A} (a : A) : M A := λ r, (Ret a, r).

Definition bind {A B} (m : M A) (k : A → M B) : M B :=
  λ r, match m r with
       | (Ret a, r') => k a r'
       | (Raise e, r') => (Raise e, r')
       end.

Definition raise {A} (e : Exn) : M A := λ r, (Raise e, r).

Definition emit (e : Event) : M unit :=
  λ r, (Ret (), {| store := store r; trace := trace r ++ [e] |}).

Definition get_store : M DB := λ r, (Ret (store r), r).

Definition put_store (db : DB) : M unit :=
  λ r, (Ret (), {| store := db; trace := trace r |}).

End RunMonad.
Import RunMonad.

Declare Scope run_scope.
Delimit Scope run_scope with run.
Notation "x <- m ;; k" := (bind m (λ x, k))
  (at level 20, m at level 99, k at level 200, only parsing) : run_scope.
Notation "' p <- m ;; k" := (bind m (λ x, match x with p => k end))
  (at level 20, p pattern, m at level 99, k at level 200, only parsing)
  : run_scope.
Notation "m ;; k" := (bind m (λ _, k))
  (at level 100, k at level 200, only parsing, right associativity)
  : run_scope.
Local Open Scope run_scope.

(** *** Library calls *)

Definition logging_info (msg : string) : M unit := emit (Log INFO msg).
Definition logging_error (msg : string) : M unit := emit (Log ERROR msg).
Definition logging_critical (msg : string) : M unit := emit (Log CRITICAL msg).

Definition delete_many (q : Mongo.Query) : M nat :=
  db <- get_store ;;
  let '(deleted_count, rest) := Mongo.delete_many q (notifications db) in
  put_store {| requests := requests db; notifications := rest |} ;;
  emit (DeleteMany q deleted_count) ;;
  ret deleted_count.

Definition render (w : World) (org_id encrypt_key : string)
    : M (bool * option Results) :=
  db <- get_store ;;
  let '(out, db') := generate_notification w db org_id encrypt_key in
  emit (GenerateNotification org_id true encrypt_key) ;;
  put_store db' ;;
  ret out.

Definition popen_communicate (w : World) (argv : list string)
    : M (string * string * Z) :=
  db <- get_store ;;
  emit (Popen argv) ;;
  ret (communicate w db).

(** The filesystem while the run goes on: what the run found at a path,
    unless the run itself has removed it or put a link there since.  The
    link the script creates points at the directory it has just created,
    so it is live. *)
Definition entry_after (path : string) (e : Entry) (ev : Event) : Entry :=
  match ev with
  | Remove p => if decide (p = path) then Absent else e
  | Symlink _ p => if decide (p = path) then LiveLink else e
  | _ => e
  end.

Definition entry_now (w : World) (t : list Event) (path : string) : Entry :=
  foldl (entry_after path) (entry w path) t.

(** [os.path.exists] follows links: a dangling link does not exist. *)
Definition os_path_exists (w : World) (path : string) : M bool :=
  λ r, (Ret match entry_now w (trace r) path with
            | Absent | DanglingLink => false
            | RegularFile | Directory | LiveLink => true
            end, r).

(** [os.remove] unlinks a file or a link and raises on a directory or on
    nothing. *)
Definition os_remove (w : World) (path : string) : M unit :=
  λ r, match entry_now w (trace r) path with
       | Absent => raise (OSError ENOENT) r
       | Directory => raise (OSError EISDIR) r
       | RegularFile | LiveLink | DanglingLink => emit (Remove path) r
       end.

(** [os.symlink] raises when anything, a dangling link included, is at the
    link's path. *)
Definition os_symlink (w : World) (src dst : string) : M unit :=
  λ r, match entry_now w (trace r) dst with
       | Absent => emit (Symlink src dst) r
       | RegularFile | Directory | LiveLink | DanglingLink =>
           raise (OSError EEXIST) r
       end.

Definition upper_ascii (c : ascii) : ascii :=
  let n := nat_of_ascii c in
  if ((97 <=? n) && (n <=? 122))%nat then ascii_of_nat (n - 32) else c.

Fixpoint upper (s : string) : string :=
  match s with
  | EmptyString => EmptyString
  | String c s' => String (upper_ascii c) (upper s')
  end.

(** [os.path.join] on two components. *)
Definition path_join (a b : string) : string :=
  if String.prefix "/" b then b
  else match a with
       | EmptyString => b
       | _ =>
           match String.get (String.length a - 1) a with
           | Some "/"%char => a +:+ b
           | _ => a +:+ "/" +:+ b
           end
       end.

(** *** Module constants *)

Definition NOTIFICATIONS_BASE_DIR : string := "/var/cyhy/reports/output".
Definition NOTIFICATION_ARCHIVE_DIR (w : World) : string :=
  path_join "notification_archive" ("notifications" +:+ today w).
Definition CYHY_MAILER_DIR : string := "/var/cyhy/cyhy-mailer".

Definition create_output_directories (w : World) : M unit :=
  emit (Mkpath (path_join NOTIFICATIONS_BASE_DIR (NOTIFICATION_ARCHIVE_DIR w))).

(** ** The artifact generator adapter *)

(** The loop of [generate_notification_pdfs]; [num_pdfs_created] is the
    running counter. *)
Fixpoint generate_loop (w : World) (master_report_key : string)
    (org_ids : list string) (num_pdfs_created : Z) : M Z :=
  match org_ids with
  | [] => ret num_pdfs_created
  | org_id :: org_ids' =>
      logging_info (org_id +:+ " - Starting to create notification PDF") ;;
      '(was_encrypted, results) <- render w org_id master_report_key ;;
      if was_encrypted then
        logging_info (org_id +:+ " - Created encrypted notification PDF") ;;
        generate_loop w master_report_key org_ids' (num_pdfs_created + 1)
      else
        match results with
        | Some res =>
            if (length (results_notifications res) =? 0)%nat then
              logging_info
                (org_id +:+ " - No notifications found, no PDF created") ;;
              generate_loop w master_report_key org_ids' num_pdfs_created
            else
              logging_error (org_id +:+ " - Unknown error occurred") ;;
              ret (-1)
        | None =>
            logging_error (org_id +:+ " - Unknown error occurred") ;;
            ret (-1)
        end
  end.

Definition generate_notification_pdfs (w : World) (org_ids : list string)
    (master_report_key : string) : M Z :=
  generate_loop w master_report_key org_ids 0.

(** ** The orchestration *)

(** Reading the global [cyhy_org_ids]: an unbound name raises. *)
Definition global_cyhy_org_ids (g : Globals) : M (list string) :=
  match cyhy_org_ids g with
  | Some ids => ret ids
  | None => raise (NameError "cyhy_org_ids")
  end.

Definition dquote : string := String "034"%char EmptyString.

Definition docker_compose_up : list string :=
  ["docker"; "compose"; "-f"; "docker-compose.yml"; "-f";
   "docker-compose.cyhy-notification.yml"; "up"].

(** [main], statement by statement.  [logging.basicConfig] is the one call
    whose exception the script handles.  The steps on the link to the
    latest notifications raise as the filesystem dictates; the database
    connection, the directory creation, the renderer, the mailer and the
    deletions are taken to return normally. *)
Definition main (g : Globals) (w : World) (args : Args) : M Z :=
  let log_level := log_level args in
  emit (BasicConfig (upper log_level)) ;;
  if negb (basicConfig w (upper log_level)) then
    logging_critical
      (dquote +:+ log_level +:+ dquote
       +:+ " is not a valid logging level.  Possible values "
       +:+ "are debug, info, warning, and error.") ;;
    ret 1
  else
    emit (DbFromConfig (CYHY_DB_SECTION args)) ;;
    create_output_directories w ;;
    emit (Chdir (path_join NOTIFICATIONS_BASE_DIR
                   (NOTIFICATION_ARCHIVE_DIR w))) ;;
    let master_report_key := report_key w (CYHY_DB_SECTION args) in
    org_ids <- global_cyhy_org_ids g ;;
    num_pdfs_created <-
      generate_notification_pdfs w org_ids master_report_key ;;
    logging_info (pretty num_pdfs_created +:+ " notification PDFs created") ;;
    let latest_notifications :=
      path_join NOTIFICATIONS_BASE_DIR "notification_archive/latest" in
    latest_exists <- os_path_exists w latest_notifications ;;
    (if latest_exists
     then os_remove w latest_notifications else ret ()) ;;
    os_symlink w
      (path_join NOTIFICATIONS_BASE_DIR (NOTIFICATION_ARCHIVE_DIR w))
      latest_notifications ;;
    (if bool_decide (num_pdfs_created ≠ 0) then
       emit (Chdir CYHY_MAILER_DIR) ;;
       '(data, err, return_code) <- popen_communicate w docker_compose_up ;;
       (if bool_decide (return_code = 0) then
          logging_info "Notification emails successfully sent"
        else
          logging_error "Failed to email notifications" ;;
          logging_error ("Stderr report detail: " +:+ data +:+ err)) ;;
       deleted_count <- delete_many (Mongo.GeneratedForNe []) ;;
       logging_info
         ("Deleted " +:+ pretty deleted_count
          +:+ " notifications from DB (corresponding to "
          +:+ "those just emailed out)")
     else
       logging_info "Nothing to email - skipping this step") ;;
    org_ids <- global_cyhy_org_ids g ;;
    deleted_count <- delete_many (Mongo.TicketOwnerNin org_ids) ;;
    logging_info
      ("Deleted " +:+ pretty deleted_count
       +:+ " notifications from DB (owned by "
       +:+ "non-CyHy organizations, which do not currently receive "
       +:+ "notification emails)") ;;
    emit Shutdown ;;
    ret 0.

(** A run starts on the store with nothing done yet. *)
Definition start (db : DB) : Run := {| store := db; trace := [] |}.

(** * Vocabulary of the properties *)

(** ** The organization graph *)

(** [p] is a marked parent of [o]: a request document [p] that lists [o]
    among its children and carries the report-type marker. *)
Definition parent (db : DB) (o p : string) : Prop :=
  ∃ d, d ∈ requests db ∧ _id d = p ∧ o ∈ children d
       ∧ "CYHY" ∈ report_types d.

(** Marked ancestors: one or more parent steps. *)
Definition ancestor (db : DB) : relation string := tc (parent db).

(** A seed: a ticket owner of some notification record whose request
    document carries the marker. *)
Definition seed (db : DB) (s : string) : Prop :=
  (∃ n, n ∈ notifications db ∧ ticket_owner n = s)
  ∧ ∃ d, d ∈ requests db ∧ _id d = s ∧ "CYHY" ∈ report_types d.

(** No organization reachable from [o] through parent steps is its own
    ancestor. *)
Definition cycle_free (db : DB) (o : string) : Prop :=
  ∀ x, ancestor db o x → ¬ ancestor db x x.

(** A chain of parent steps leaving [o]. *)
Inductive chain (db : DB) : string → list string → Prop :=
| chain_nil o : chain db o []
| chain_cons o p l : parent db o p → chain db p l → chain db o (p :: l).

(** A decidable sufficient condition for the absence of cycles: a rank
    that every marked document has strictly below each of its children. *)
Definition ranked (rank : string → nat) (db : DB) : Prop :=
  Forall (λ d, "CYHY" ∈ report_types d →
               Forall (λ c, (rank (_id d) < rank c)%nat) (children d))
         (requests db).

(** ** Loops over a cursor whose body may raise *)

(** One iteration of a loop whose body calls something that may raise and
    then updates the loop's state: the body runs only while no call has
    raised. *)
Definition step {A S R : Type} (call : A → option R) (upd : A → S → R → S)
    (acc : option S) (a : A) : option S :=
  s ← acc; r ← call a; Some (upd a s r).

(** ** Observations on a run *)

(** The organizations handed to the renderer, in order. *)
Definition rendered (t : list Event) : list string :=
  omap (λ e, match e with
             | GenerateNotification org_id _ _ => Some org_id
             | _ => None
             end) t.

(** Whether the delivery collaborator was started. *)
Definition delivery_invoked (t : list Event) : bool :=
  existsb (λ e, match e with Popen _ => true | _ => false end) t.

(** The bulk deletions performed, with their deleted counts. *)
Definition deletions (t : list Event) : list (Mongo.Query * nat) :=
  omap (λ e, match e with
             | DeleteMany q n => Some (q, n)
             | _ => None
             end) t.

(** The messages logged at a level. *)
Definition logged (lvl : Level) (t : list Event) : list string :=
  omap (λ e, match e with
             | Log l msg => if decide (l = lvl) then Some msg else None
             | _ => None
             end) t.

(** The three outcomes of the renderer, as the specification names them. *)
Inductive RenderOutcome := EncryptedSuccess | NoContent | UnknownFailure.

#[global] Instance RenderOutcome_eq_dec : EqDecision RenderOutcome.
Proof. solve_decision. Defined.

Definition classify (out : bool * option Results) : RenderOutcome :=
  match out with
  | (true, _) => EncryptedSuccess
  | (false, Some res) =>
      match results_notifications res with
      | [] => NoContent
      | _ :: _ => UnknownFailure
      end
  | (false, None) => UnknownFailure
  end.

(** The outcome the renderer gives for each organization of a list when it
    is called on them in turn, each call working on the store the previous
    one left. *)
Fixpoint outcomes (w : World) (key : string) (org_ids : list string)
    (db : DB) : list RenderOutcome :=
  match org_ids with
  | [] => []
  | org_id :: org_ids' =>
      let '(out, db') := generate_notification w db org_id key in
      classify out :: outcomes w key org_ids' db'
  end.

Definition successes (os : list RenderOutcome) : nat :=
  length (filter (λ o, o = EncryptedSuccess) os).

(** The state in which [main] calls the generator. *)
Definition prepared (w : World) (args : Args) (db : DB) : Run := {|
  store := db;
  trace :=
    [ BasicConfig (upper (log_level args));
      DbFromConfig (CYHY_DB_SECTION args);
      Mkpath (path_join NOTIFICATIONS_BASE_DIR (NOTIFICATION_ARCHIVE_DIR w));
      Chdir (path_join NOTIFICATIONS_BASE_DIR (NOTIFICATION_ARCHIVE_DIR w)) ];
|}.

(** ** Concrete stores and collaborators *)

(** Organization A lists itself among its children. *)
Definition db_self_parent : DB := {|
  requests :=
    [ {| _id := "A"; report_types := ["CYHY"]; children := ["A"] |} ];
  notifications :=
    [ {| ticket_owner := "A"; generated_for := [] |} ];
|}.

(** A has marked parent P, P has marked parent G. *)
Definition db_three_levels : DB := {|
  requests :=
    [ {| _id := "A"; report_types := ["CYHY"]; children := [] |};
      {| _id := "P"; report_types := ["CYHY"]; children := ["A"] |};
      {| _id := "G"; report_types := ["CYHY"]; children := ["P"] |} ];
  notifications :=
    [ {| ticket_owner := "A"; generated_for := [] |} ];
|}.

Definition rank_three_levels (s : string) : nat :=
  if decide (s = "A") then 2 else if decide (s = "P") then 1 else 0.

(** A renderer in the shape the script expects: it reports no content when
    the organization owns no notification record, and otherwise stamps the
    organization's records and reports an encrypted artifact. *)
Definition stamping_renderer (db : DB) (org_id key : string)
    : (bool * option Results) * DB :=
  let owned := filter (λ d, ticket_owner d = org_id) (notifications db) in
  match owned with
  | [] => ((false, Some {| results_notifications := [] |}), db)
  | _ :: _ =>
      ((true, Some {| results_notifications := owned |}),
       {| requests := requests db;
          notifications :=
            (λ d, if decide (ticket_owner d = org_id)
                  then {| ticket_owner := ticket_owner d;
                          generated_for := generated_for d ++ [org_id] |}
                  else d) <$> notifications db |})
  end.

(** A renderer that fails in the unknown way for every organization. *)
Definition failing_renderer (db : DB) (org_id key : string)
    : (bool * option Results) * DB :=
  ((false, None), db).

Definition example_world
    (renderer : DB → string → string → (bool * option Results) * DB)
    (returncode : Z) : World := {|
  basicConfig := λ level,
    bool_decide (level ∈ ["DEBUG"; "INFO"; "WARNING"; "ERROR"; "CRITICAL"]);
  today := "20240101";
  report_key := λ _, "master-key";
  generate_notification := renderer;
  entry := λ _, Absent;
  communicate := λ _, (("mailer stdout", "mailer stderr"), returncode);
|}.

Definition example_args : Args :=
  {| log_level := "warning"; CYHY_DB_SECTION := "production" |}.

(** One record owned by A that an earlier run has stamped, one owned by an
    organization outside the universe. *)
Definition db_stamped : DB := {|
  requests :=
    [ {| _id := "A"; report_types := ["CYHY"]; children := [] |} ];
  notifications :=
    [ {| ticket_owner := "A"; generated_for := ["A"] |};
      {| ticket_owner := "Z"; generated_for := [] |} ];
|}.

(** The three-level store with its documents in another order and one
    notification record repeated. *)
Definition db_three_levels_reordered : DB := {|
  requests :=
    [ {| _id := "G"; report_types := ["CYHY"]; children := ["P"] |};
      {| _id := "A"; report_types := ["CYHY"]; children := [] |};
      {| _id := "P"; report_types := ["CYHY"]; children := ["A"] |} ];
  notifications :=
    [ {| ticket_owner := "A"; generated_for := [] |};
      {| ticket_owner := "A"; generated_for := [] |} ];
|}.

(** The events the generator produces: log lines and renderer calls. *)
Definition generation_event (e : Event) : bool :=
  match e with
  | Log _ _ | GenerateNotification _ _ _ => true
  | _ => false
  end.

(** The steps that touch the link to the latest notifications. *)
Definition link_events (t : list Event) : list Event :=
  List.filter (λ e, match e with
                    | Remove _ | Symlink _ _ => true
                    | _ => false
                    end) t.

(** The path of the link to the latest notifications. *)
Definition latest_notifications : string :=
  path_join NOTIFICATIONS_BASE_DIR "notification_archive/latest".

(** What lets the link step of [main] go through: nothing at the link's
    path, or something [os.path.exists] sees and [os.remove] removes. *)
Definition replaceable (e : Entry) : bool :=
  match e with
  | Absent | RegularFile | LiveLink => true
  | Directory | DanglingLink => false
  end.

(** The events that leave the filesystem entries alone. *)
Definition keeps_links (ev : Event) : bool :=
  match ev with
  | Remove _ | Symlink _ _ => false
  | _ => true
  end.

(** A world that differs in what the run finds at one path. *)
Definition with_entry (w : World) (path : string) (e : Entry) : World := {|
  basicConfig := basicConfig w;
  today := today w;
  report_key := report_key w;
  generate_notification := generate_notification w;
  entry := λ p, if decide (p = path) then e else entry w p;
  communicate := communicate w;
|}.

(** * Properties *)

(** ** Facts about the organization graph *)

Lemma parent_find_children db o p :
  parent db o p ↔ ∃ d, d ∈ Mongo.find_children o "CYHY" (requests db)
                    ∧ _id d = p.
Proof.
  unfold parent, Mongo.find_children. split.
  - intros (d & Hd & Hid & Hc & Hr). exists d.
    rewrite list_elem_of_filter. auto.
  - intros (d & Hd & Hid). apply list_elem_of_filter in Hd as [[Hc Hr] Hd].
    eauto 6.
Qed.

Lemma seed_find_id_in db s :
  seed db s ↔
  ∃ d, d ∈ Mongo.find_id_in
             (Mongo.distinct ticket_owner (notifications db)) "CYHY"
             (requests db)
       ∧ _id d = s.
Proof.
  unfold seed, Mongo.find_id_in, Mongo.distinct. split.
  - intros [(n & Hn & Hown) (d & Hd & Hid & Hr)]. exists d.
    rewrite list_elem_of_filter, elem_of_remove_dups, list_elem_of_fmap.
    repeat split; auto. exists n. split; congruence.
  - intros (d & Hd & Hid).
    apply list_elem_of_filter in Hd as [[Hin Hr] Hd].
    apply elem_of_remove_dups, list_elem_of_fmap in Hin as (n & Hn & Hin).
    split; [exists n | exists d]; repeat split; auto; congruence.
Qed.

Lemma ancestor_step db o x :
  ancestor db o x ↔ ∃ p, parent db o p ∧ (x = p ∨ ancestor db p x).
Proof.
  split.
  - intros H. destruct H as [o x H | o p x H Ht]; eauto.
  - intros (p & Hp & [-> | Ht]).
    + by apply tc_once.
    + by eapply tc_l.
Qed.

Lemma parent_is_request db o p : parent db o p → p ∈ _id <$> requests db.
Proof.
  intros (d & Hd & Hid & _). apply list_elem_of_fmap. exists d. auto.
Qed.

Lemma chain_ids db o l : chain db o l → l ⊆ _id <$> requests db.
Proof.
  induction 1 as [| o p l Hp _ IH]; intros x Hx.
  - by apply elem_of_nil in Hx.
  - apply elem_of_cons in Hx as [-> | Hx]; eauto using parent_is_request.
Qed.

Lemma chain_reaches db o l i x : chain db o l → l !! i = Some x → ancestor db o x.
Proof.
  intros Hc. revert i. induction Hc as [| o p l Hp _ IH]; intros i Hi.
  - by rewrite lookup_nil in Hi.
  - destruct i as [| i]; simpl in Hi.
    + injection Hi as ->. by apply tc_once.
    + apply tc_l with p; [done | by apply (IH i)].
Qed.

Lemma chain_later db o l i j x y :
  chain db o l → (i < j)%nat → l !! i = Some x → l !! j = Some y →
  ancestor db x y.
Proof.
  intros Hc. revert i j. induction Hc as [| o p l Hp Hc IH]; intros i j Hij Hi Hj.
  - by rewrite lookup_nil in Hi.
  - destruct j as [| j]; [lia |]. simpl in Hj.
    destruct i as [| i]; simpl in Hi.
    + injection Hi as ->. eapply chain_reaches; eauto.
    + eapply (IH i j); eauto. lia.
Qed.

(** On a cycle-free part of the graph no chain is longer than the
    number of request documents. *)
Lemma chain_bounded db o l :
  cycle_free db o → chain db o l → (length l ≤ length (requests db))%nat.
Proof.
  intros Hfree Hc.
  destruct (decide (length l ≤ length (requests db))%nat) as [| Hlong]; [done |].
  destruct (list_pigeonhole l (_id <$> requests db)) as (i & j & x & Hij & Hi & Hj).
  - eauto using chain_ids.
  - rewrite length_fmap. lia.
  - exfalso. apply (Hfree x).
    + eapply chain_reaches; eauto.
    + eapply chain_later; eauto.
Qed.

(** ** Loops over a cursor whose body may raise *)

Section Loop.

Context {A S R : Type}.
Variable call : A → option R.
Variable upd : A → S → R → S.

Lemma loop_raised l : foldl (step call upd) None l = None.
Proof. induction l; simpl; auto. Qed.

(** The loop finishes exactly when every call returns, and then an
    invariant over the processed prefix carries through. *)
Lemma loop_invariant (I : list A → S → Prop) l s0 s :
  I [] s0 →
  (∀ done a s r, I done s → call a = Some r → I (done ++ [a])%list (upd a s r)) →
  foldl (step call upd) (Some s0) l = Some s →
  I l s.
Proof.
  intros H0 Hstep. revert s.
  induction l as [| a l IH] using rev_ind; intros s Hs.
  - simpl in Hs. by injection Hs as <-.
  - rewrite foldl_app in Hs. simpl in Hs.
    destruct (foldl (step call upd) (Some s0) l) as [s1 |] eqn:Hl; [| done].
    simpl in Hs. destruct (call a) as [r |] eqn:Ha; [| done].
    simpl in Hs. injection Hs as <-. eauto.
Qed.

Lemma loop_returns l s0 :
  Forall (λ a, is_Some (call a)) l → is_Some (foldl (step call upd) (Some s0) l).
Proof.
  revert s0. induction l as [| a l IH]; intros s0 Hall; simpl.
  - eauto.
  - apply Forall_cons in Hall as [[r Hr] Hall]. rewrite Hr. simpl. auto.
Qed.

Lemma loop_raises l s0 :
  foldl (step call upd) (Some s0) l = None → ∃ a, a ∈ l ∧ call a = None.
Proof.
  revert s0. induction l as [| a l IH]; intros s0 Hl; simpl in Hl.
  - done.
  - destruct (call a) as [r |] eqn:Ha; simpl in Hl.
    + destruct (IH _ Hl) as (b & Hb & Hnone). exists b.
      split; [by apply list_elem_of_further | done].
    + exists a. split; [apply list_elem_of_here | done].
Qed.

Lemma loop_calls l s0 s :
  foldl (step call upd) (Some s0) l = Some s → Forall (λ a, is_Some (call a)) l.
Proof.
  revert s0. induction l as [| a l IH]; intros s0 Hl; simpl in Hl.
  - constructor.
  - destruct (call a) as [r |] eqn:Ha; simpl in Hl.
    + constructor; eauto.
    + by rewrite loop_raised in Hl.
Qed.

End Loop.

Lemma foldl_pointwise {A B} (f g : B → A → B) l b :
  (∀ b a, f b a = g b a) → foldl f b l = foldl g b l.
Proof.
  intros Hfg. revert b. induction l as [| a l IH]; intros b; simpl; [done |].
  by rewrite Hfg, IH.
Qed.

(** ** The recursive ancestor lookup *)

Lemma find_cyhy_parents_unfold limit db org_id :
  find_cyhy_parents (S limit) db org_id =
  foldl (step (λ request, find_cyhy_parents limit db (_id request))
              (λ request cyhy_parents rec,
                 ({[ _id request ]} ∪ cyhy_parents) ∪ rec))
        (Some ∅) (Mongo.find_children org_id "CYHY" (requests db)).
Proof. reflexivity. Qed.

(** Whatever the lookup returns is the set of marked ancestors. *)
Lemma find_cyhy_parents_sound limit db org_id X :
  find_cyhy_parents limit db org_id = Some X →
  ∀ x, x ∈ X ↔ ancestor db org_id x.
Proof.
  revert org_id X. induction limit as [| limit IH]; intros o X Hfind; [done |].
  rewrite find_cyhy_parents_unfold in Hfind.
  enough (Hinv : ∀ x, x ∈ X ↔
            ∃ d, d ∈ Mongo.find_children o "CYHY" (requests db)
                 ∧ (x = _id d ∨ ancestor db (_id d) x)).
  { intros x. rewrite Hinv, ancestor_step. split.
    - intros (d & Hd & Hx). exists (_id d). split; [| done].
      apply parent_find_children. eauto.
    - intros (p & Hp & Hx). apply parent_find_children in Hp as (d & Hd & <-).
      eauto. }
  revert Hfind.
  apply (loop_invariant _ _
           (λ done (Y : gset string),
              ∀ x, x ∈ Y ↔
                   ∃ d, d ∈ done ∧ (x = _id d ∨ ancestor db (_id d) x))).
  - intros x. split; [set_solver |]. intros (d & Hd & _).
    by apply elem_of_nil in Hd.
  - intros done d Y rec HY Hrec x. pose proof (IH _ _ Hrec) as Hanc.
    rewrite !elem_of_union, elem_of_singleton, HY, Hanc. split.
    + intros [[-> | (d' & Hd' & Hx)] | Hx].
      * exists d. split; [apply elem_of_app; right; apply list_elem_of_here | auto].
      * exists d'. split; [apply elem_of_app; by left | done].
      * exists d. split; [apply elem_of_app; right; apply list_elem_of_here | auto].
    + intros (d' & Hd' & Hx). apply elem_of_app in Hd' as [Hd' | Hd'].
      * left. right. eauto.
      * apply list_elem_of_singleton in Hd' as ->. destruct Hx; auto.
Qed.

(** A lookup that raises has followed a chain of parent steps as long as
    the recursion limit. *)
Lemma find_cyhy_parents_raises limit db org_id :
  find_cyhy_parents limit db org_id = None →
  ∃ l, length l = limit ∧ chain db org_id l.
Proof.
  revert org_id. induction limit as [| limit IH]; intros o Hfind.
  - exists []. split; [done | constructor].
  - rewrite find_cyhy_parents_unfold in Hfind.
    apply loop_raises in Hfind as (d & Hd & Hnone).
    apply IH in Hnone as (l & Hlen & Hc). exists (_id d :: l). split.
    + simpl. by rewrite Hlen.
    + constructor; [| done]. apply parent_find_children. eauto.
Qed.

(** A lookup that returns has seen only chains shorter than the limit. *)
Lemma find_cyhy_parents_returns limit db org_id X l :
  find_cyhy_parents limit db org_id = Some X →
  chain db org_id l → (length l < limit)%nat.
Proof.
  revert org_id X l. induction limit as [| limit IH]; intros o X l Hfind Hc; [done |].
  destruct Hc as [| o p l Hp Hc]; [simpl; lia |].
  rewrite find_cyhy_parents_unfold in Hfind. apply loop_calls in Hfind.
  apply parent_find_children in Hp as (d & Hd & <-).
  rewrite Forall_forall in Hfind. destruct (Hfind d Hd) as [Y HY].
  specialize (IH _ _ _ HY Hc). simpl. lia.
Qed.

Lemma find_cyhy_parents_total db org_id limit :
  cycle_free db org_id → (length (requests db) < limit)%nat →
  is_Some (find_cyhy_parents limit db org_id).
Proof.
  intros Hfree Hlim.
  destruct (find_cyhy_parents limit db org_id) as [X |] eqn:Hfind; [eauto |].
  apply find_cyhy_parents_raises in Hfind as (l & Hlen & Hc).
  apply chain_bounded in Hc; [lia | done].
Qed.

(** A cycle makes chains of every length. *)
Lemma chain_extend db x y l :
  ancestor db x y → chain db y l →
  ∃ l', chain db x l' ∧ (length l < length l')%nat.
Proof.
  intros Hanc. revert l.
  induction Hanc as [x y Hp | x p y Hp _ IH]; intros l Hc.
  - exists (y :: l). split; [by constructor | simpl; lia].
  - destruct (IH _ Hc) as (l' & Hc' & Hlen).
    exists (p :: l'). split; [by constructor | simpl; lia].
Qed.

Lemma chain_cycle db x n :
  ancestor db x x → ∃ l, chain db x l ∧ (n ≤ length l)%nat.
Proof.
  intros Hcyc. induction n as [| n (l & Hc & Hlen)].
  - exists []. split; [constructor | simpl; lia].
  - destruct (chain_extend _ _ _ _ Hcyc Hc) as (l' & Hc' & Hlen').
    exists l'. split; [done | lia].
Qed.

(** The lookup never returns from an organization that reaches a cycle. *)
Lemma find_cyhy_parents_cycle db org_id x limit :
  ancestor db org_id x → ancestor db x x →
  find_cyhy_parents limit db org_id = None.
Proof.
  intros Hreach Hcyc.
  destruct (find_cyhy_parents limit db org_id) as [X |] eqn:Hfind; [| done].
  destruct (chain_cycle _ _ limit Hcyc) as (l & Hc & Hlen).
  destruct (chain_extend _ _ _ _ Hreach Hc) as (l' & Hc' & Hlen').
  pose proof (find_cyhy_parents_returns _ _ _ _ _ Hfind Hc'). lia.
Qed.

(** ** The resolver *)

Lemma build_notifications_org_list_unfold limit db :
  build_notifications_org_list limit db =
  acc ← foldl
          (step (λ request, find_cyhy_parents limit db (_id request))
                (λ request (acc : gset string * gset string) found,
                   ({[ _id request ]} ∪ acc.1, acc.2 ∪ found)))
          (Some (∅, ∅))
          (Mongo.find_id_in
             (Mongo.distinct ticket_owner (notifications db)) "CYHY"
             (requests db));
  Some (acc.1 ∪ acc.2).
Proof.
  unfold build_notifications_org_list.
  rewrite (foldl_pointwise _
             (step (λ request, find_cyhy_parents limit db (_id request))
                   (λ request (acc : gset string * gset string) found,
                      ({[ _id request ]} ∪ acc.1, acc.2 ∪ found)))).
  - destruct (foldl _ _ _) as [[g p] |]; reflexivity.
  - intros [[g p] |] request; reflexivity.
Qed.

Lemma build_notifications_org_list_sound limit db X :
  build_notifications_org_list limit db = Some X →
  ∀ x, x ∈ X ↔ seed db x ∨ ∃ s, seed db s ∧ ancestor db s x.
Proof.
  rewrite build_notifications_org_list_unfold. intros Hbuild.
  destruct (foldl _ _ _) as [[g p] |] eqn:Hloop; [| done].
  simpl in Hbuild. injection Hbuild as <-.
  enough (Hinv :
    (∀ x, x ∈ g ↔ ∃ d, d ∈ Mongo.find_id_in
                 (Mongo.distinct ticket_owner (notifications db)) "CYHY"
                 (requests db) ∧ x = _id d)
    ∧ (∀ x, x ∈ p ↔ ∃ d, d ∈ Mongo.find_id_in
                 (Mongo.distinct ticket_owner (notifications db)) "CYHY"
                 (requests db) ∧ ancestor db (_id d) x)).
  { destruct Hinv as [Hg Hp]. intros x. rewrite elem_of_union, Hg, Hp.
    split.
    - intros [(d & Hd & ->) | (d & Hd & Hx)].
      + left. apply seed_find_id_in. eauto.
      + right. exists (_id d). split; [apply seed_find_id_in; eauto | done].
    - intros [Hs | (s & Hs & Hx)].
      + apply seed_find_id_in in Hs as (d & Hd & <-). eauto.
      + apply seed_find_id_in in Hs as (d & Hd & <-). eauto. }
  revert Hloop.
  apply (loop_invariant _ _
           (λ done (acc : gset string * gset string),
              (∀ x, x ∈ acc.1 ↔ ∃ d, d ∈ done ∧ x = _id d)
              ∧ (∀ x, x ∈ acc.2 ↔ ∃ d, d ∈ done ∧ ancestor db (_id d) x))).
  - simpl. split; intros x; (split; [set_solver |]); intros (d & Hd & _);
      by apply elem_of_nil in Hd.
  - intros done d [g' p'] found [Hg Hp] Hfound. simpl in *.
    pose proof (find_cyhy_parents_sound _ _ _ _ Hfound) as Hanc.
    split; intros x.
    + rewrite elem_of_union, elem_of_singleton, Hg. split.
      * intros [-> | (d' & Hd' & ->)].
        -- exists d. split; [apply elem_of_app; right; apply list_elem_of_here | done].
        -- exists d'. split; [apply elem_of_app; by left | done].
      * intros (d' & Hd' & ->). apply elem_of_app in Hd' as [Hd' | Hd'].
        -- right. eauto.
        -- apply list_elem_of_singleton in Hd' as ->. by left.
    + rewrite elem_of_union, Hp, Hanc. split.
      * intros [(d' & Hd' & Hx) | Hx].
        -- exists d'. split; [apply elem_of_app; by left | done].
        -- exists d. split; [apply elem_of_app; right; apply list_elem_of_here | done].
      * intros (d' & Hd' & Hx). apply elem_of_app in Hd' as [Hd' | Hd'].
        -- left. eauto.
        -- apply list_elem_of_singleton in Hd' as ->. by right.
Qed.

Lemma build_notifications_org_list_total limit db :
  (∀ s, seed db s → cycle_free db s) →
  (length (requests db) < limit)%nat →
  is_Some (build_notifications_org_list limit db).
Proof.
  intros Hfree Hlim. rewrite build_notifications_org_list_unfold.
  match goal with
  | |- is_Some (foldl (step ?call ?upd) (Some ?s0) ?l ≫= _) =>
      destruct (loop_returns call upd l s0) as [acc Hacc];
        [| rewrite Hacc; simpl; eauto]
  end.
  apply Forall_forall. intros d Hd.
  apply find_cyhy_parents_total; [| done].
  apply Hfree, seed_find_id_in. eauto.
Qed.

Lemma ranked_ancestor rank db o x :
  ranked rank db → ancestor db o x → (rank x < rank o)%nat.
Proof.
  intros Hr Hanc.
  assert (Hstep : ∀ a b, parent db a b → (rank b < rank a)%nat).
  { intros a b (d & Hd & <- & Hc & Hm).
    unfold ranked in Hr. rewrite Forall_forall in Hr.
    specialize (Hr d Hd Hm). rewrite Forall_forall in Hr. auto. }
  induction Hanc as [a b Hp | a b c Hp _ IH].
  - auto.
  - specialize (Hstep _ _ Hp). lia.
Qed.

Lemma ranked_cycle_free rank db o : ranked rank db → cycle_free db o.
Proof.
  intros Hr x _ Hcyc. pose proof (ranked_ancestor _ _ _ _ Hr Hcyc). lia.
Qed.

Lemma db_three_levels_ranked : ranked rank_three_levels db_three_levels.
Proof. apply (bool_decide_unpack _). vm_compute. exact I. Qed.

Lemma db_self_parent_cycle : ancestor db_self_parent "A" "A".
Proof.
  apply tc_once.
  exists {| _id := "A"; report_types := ["CYHY"]; children := ["A"] |}.
  repeat split; apply list_elem_of_here.
Qed.

Lemma db_self_parent_seed : seed db_self_parent "A".
Proof.
  split.
  - exists {| ticket_owner := "A"; generated_for := [] |}.
    split; [apply list_elem_of_here | done].
  - exists {| _id := "A"; report_types := ["CYHY"]; children := ["A"] |}.
    repeat split; apply list_elem_of_here.
Qed.

(** The three-level scenario of the specification. *)
Example build_notifications_org_list_three_levels :
  elements <$> build_notifications_org_list 4 db_three_levels
  = Some ["G"; "A"; "P"].
Proof. vm_compute. reflexivity. Qed.

(** ** C2: the ancestor lookup and cycles *)

(** C2, as the code has it: on the store where organization A is its own
    marked parent the lookup returns for no recursion limit; every call
    runs into the interpreter's recursion limit. *)
Lemma find_cyhy_parents_self_parent_never_returns :
  ¬ ∃ limit X, find_cyhy_parents limit db_self_parent "A" = Some X.
Proof.
  intros (limit & X & Hfind).
  by rewrite (find_cyhy_parents_cycle _ _ "A")
    in Hfind by apply db_self_parent_cycle.
Qed.

(** C2 (amended): when no organization reachable from [org_id] through
    marked-parent steps is its own ancestor, the lookup returns under every
    recursion limit above the number of request documents, always the same
    set, and that set is exactly the marked ancestors of [org_id]. *)
Theorem find_cyhy_parents_terminates_cycle_free db org_id :
  cycle_free db org_id →
  ∃ X : gset string,
    (∀ limit, (length (requests db) < limit)%nat →
              find_cyhy_parents limit db org_id = Some X)
    ∧ ∀ x, x ∈ X ↔ ancestor db org_id x.
Proof.
  intros Hfree.
  destruct (find_cyhy_parents_total db org_id (S (length (requests db))))
    as [X HX]; [done | lia |].
  exists X. split; [| by eapply find_cyhy_parents_sound].
  intros limit Hlim.
  destruct (find_cyhy_parents_total db org_id limit) as [Y HY]; [done.. |].
  rewrite HY. f_equal. apply set_eq. intros x.
  by rewrite (find_cyhy_parents_sound _ _ _ _ HY),
             (find_cyhy_parents_sound _ _ _ _ HX).
Qed.

Lemma find_cyhy_parents_terminates_cycle_free_witness :
  cycle_free db_three_levels "A"
  ∧ ∃ X : gset string,
      (∀ limit, (length (requests db_three_levels) < limit)%nat →
                find_cyhy_parents limit db_three_levels "A" = Some X)
      ∧ ∀ x, x ∈ X ↔ ancestor db_three_levels "A" x.
Proof.
  split.
  - apply (ranked_cycle_free rank_three_levels), db_three_levels_ranked.
  - apply (find_cyhy_parents_terminates_cycle_free db_three_levels "A").
    apply (ranked_cycle_free rank_three_levels), db_three_levels_ranked.
Defined.

(** ** C8: the resolver's output *)

(** C8, as the code has it: on the store where the seed A is its own
    marked parent the resolver has no output, whatever the recursion
    limit. *)
Lemma build_notifications_org_list_self_parent_no_output :
  ¬ ∃ limit X, build_notifications_org_list limit db_self_parent = Some X.
Proof.
  intros (limit & X & Hb).
  rewrite build_notifications_org_list_unfold in Hb.
  destruct (foldl _ _ _) as [acc |] eqn:Hloop; [| done].
  apply loop_calls in Hloop. rewrite Forall_forall in Hloop.
  destruct (Hloop {| _id := "A"; report_types := ["CYHY"];
                     children := ["A"] |}) as [Y HY].
  - apply (bool_decide_unpack _). vm_compute. exact I.
  - simpl in HY.
    by rewrite (find_cyhy_parents_cycle _ _ "A")
      in HY by apply db_self_parent_cycle.
Qed.

(** C8 (amended): on every store in which no seed reaches a cycle of
    marked parents, the resolver returns (under every recursion limit above
    the number of request documents) one set [X]: [X] holds exactly the
    seeds and their marked ancestors, so it contains every seed and nothing
    unreachable from a seed; as a set it lists each organization once; and
    it is empty when there is no seed. *)
Theorem build_notifications_org_list_closure db :
  (∀ s, seed db s → cycle_free db s) →
  ∃ X : gset string,
    (∀ limit, (length (requests db) < limit)%nat →
              build_notifications_org_list limit db = Some X)
    ∧ (∀ x, x ∈ X ↔ seed db x ∨ ∃ s, seed db s ∧ ancestor db s x)
    ∧ (∀ s, seed db s → s ∈ X)
    ∧ NoDup (elements X)
    ∧ ((∀ s, ¬ seed db s) → X = ∅).
Proof.
  intros Hfree.
  destruct (build_notifications_org_list_total (S (length (requests db))) db)
    as [X HX]; [done | lia |].
  pose proof (build_notifications_org_list_sound _ _ _ HX) as Hmem.
  exists X. repeat split.
  - intros limit Hlim.
    destruct (build_notifications_org_list_total limit db) as [Y HY];
      [done.. |].
    rewrite HY. f_equal. apply set_eq. intros x.
    by rewrite (build_notifications_org_list_sound _ _ _ HY), Hmem.
  - apply Hmem.
  - apply Hmem.
  - intros s Hs. apply Hmem. by left.
  - apply NoDup_elements.
  - intros Hnone. apply set_eq. intros x. rewrite Hmem. split.
    + intros [Hs | (s & Hs & _)]; by eapply Hnone in Hs.
    + intros Hx. by apply not_elem_of_empty in Hx.
Qed.

Lemma build_notifications_org_list_closure_witness :
  (∀ s, seed db_three_levels s → cycle_free db_three_levels s)
  ∧ ∃ X : gset string,
      (∀ limit, (length (requests db_three_levels) < limit)%nat →
                build_notifications_org_list limit db_three_levels = Some X)
      ∧ (∀ x, x ∈ X ↔ seed db_three_levels x
                      ∨ ∃ s, seed db_three_levels s
                             ∧ ancestor db_three_levels s x)
      ∧ (∀ s, seed db_three_levels s → s ∈ X)
      ∧ NoDup (elements X)
      ∧ ((∀ s, ¬ seed db_three_levels s) → X = ∅).
Proof.
  split.
  - intros s _.
    apply (ranked_cycle_free rank_three_levels), db_three_levels_ranked.
  - apply (build_notifications_org_list_closure db_three_levels).
    intros s _.
    apply (ranked_cycle_free rank_three_levels), db_three_levels_ranked.
Defined.

(** ** C7: the success count *)

Lemma generate_loop_count w key org_ids num r :
  Forall (λ o, o ≠ UnknownFailure) (outcomes w key org_ids (store r)) →
  (generate_loop w key org_ids num r).1
  = Ret (num + Z.of_nat (successes (outcomes w key org_ids (store r))))
  ∧ logged ERROR (trace (generate_loop w key org_ids num r).2)
    = logged ERROR (trace r)
  ∧ rendered (trace (generate_loop w key org_ids num r).2)
    = (rendered (trace r) ++ org_ids)%list.
Proof.
  revert num r. induction org_ids as [| org_id org_ids IH]; intros num r Hok.
  - simpl. rewrite Z.add_0_r, app_nil_r. auto.
  - simpl in Hok |- *. unfold bind, render, get_store, put_store, bind; simpl.
    destruct (generate_notification w (store r) org_id key)
      as [[was_encrypted results] db'] eqn:Hgen.
    apply Forall_cons in Hok as [Hhead Hok]. simpl.
    destruct was_encrypted; simpl in *.
    + edestruct (IH (num + 1)) as (-> & -> & ->); [exact Hok |]. simpl.
      unfold successes, logged, rendered. simpl.
      rewrite !omap_app. simpl. rewrite !app_nil_r, <-?app_assoc. simpl.
      repeat split. f_equal. lia.
    + destruct results as [res |]; [| done].
      destruct (results_notifications res) as [| n ns] eqn:Hres; [| done].
      simpl. edestruct (IH num) as (-> & -> & ->); [exact Hok |]. simpl.
      unfold successes, logged, rendered. simpl.
      rewrite !omap_app. simpl. rewrite !app_nil_r, <-?app_assoc. simpl.
      repeat split.
Qed.

(** C7: over a list of organizations for which the renderer only reports
    encrypted success or no content, [generate_notification_pdfs] returns
    the number of encrypted successes; it renders every organization of the
    list in order and logs nothing at error severity. *)
Theorem generate_notification_pdfs_counts_successes w org_ids key r :
  Forall (λ o, o ≠ UnknownFailure) (outcomes w key org_ids (store r)) →
  (generate_notification_pdfs w org_ids key r).1
  = Ret (Z.of_nat (successes (outcomes w key org_ids (store r))))
  ∧ logged ERROR (trace (generate_notification_pdfs w org_ids key r).2)
    = logged ERROR (trace r)
  ∧ rendered (trace (generate_notification_pdfs w org_ids key r).2)
    = (rendered (trace r) ++ org_ids)%list.
Proof.
  intros Hok. unfold generate_notification_pdfs.
  destruct (generate_loop_count w key org_ids 0 r Hok) as (H1 & H2 & H3).
  rewrite H1, H2, H3. auto.
Qed.

Lemma generate_notification_pdfs_counts_successes_witness :
  Forall (λ o, o ≠ UnknownFailure)
    (outcomes (example_world stamping_renderer 0) "master-key"
       ["A"; "B"; "A"] (store (start db_stamped)))
  ∧ (generate_notification_pdfs (example_world stamping_renderer 0)
       ["A"; "B"; "A"] "master-key" (start db_stamped)).1
    = Ret 2.
Proof.
  split.
  - apply (bool_decide_unpack _). vm_compute. exact I.
  - apply (generate_notification_pdfs_counts_successes
             (example_world stamping_renderer 0) ["A"; "B"; "A"]
             "master-key" (start db_stamped)).
    apply (bool_decide_unpack _). vm_compute. exact I.
Defined.

(** ** C9: the delivered-batch cleanup is idempotent *)

Lemma mongo_delete_generated_for coll :
  Mongo.delete_many (Mongo.GeneratedForNe []) coll
  = (length (filter (λ d, generated_for d ≠ []) coll),
     filter (λ d, generated_for d = []) coll).
Proof.
  unfold Mongo.delete_many. f_equal.
  - induction coll as [| d coll IH]; [done |]. simpl.
    rewrite filter_cons. unfold Mongo.matches in *.
    case_bool_decide; case_decide; simpl; try done. by rewrite IH.
  - induction coll as [| d coll IH]; [done |]. simpl.
    rewrite filter_cons. unfold Mongo.matches in *.
    case_bool_decide; case_decide; simpl; try done; by rewrite IH.
Qed.

Lemma mongo_delete_ticket_owner ids coll :
  Mongo.delete_many (Mongo.TicketOwnerNin ids) coll
  = (length (filter (λ d, ticket_owner d ∉ ids) coll),
     filter (λ d, ticket_owner d ∈ ids) coll).
Proof.
  unfold Mongo.delete_many. f_equal.
  - induction coll as [| d coll IH]; [done |]. simpl.
    rewrite filter_cons. unfold Mongo.matches in *.
    case_bool_decide; case_decide; simpl; try done. by rewrite IH.
  - induction coll as [| d coll IH]; [done |]. simpl.
    rewrite filter_cons. unfold Mongo.matches in *.
    case_bool_decide; case_decide; simpl; try done; by rewrite IH.
Qed.

Lemma filter_none {A} (P : A → Prop) `{∀ x, Decision (P x)} (l : list A) :
  Forall (λ x, ¬ P x) l → filter P l = [].
Proof.
  induction 1 as [| x l Hx _ IH]; [done |].
  by rewrite filter_cons, decide_False.
Qed.

Lemma filter_all {A} (P : A → Prop) `{∀ x, Decision (P x)} (l : list A) :
  Forall P l → filter P l = l.
Proof.
  induction 1 as [| x l Hx _ IH]; [done |].
  by rewrite filter_cons, decide_True, IH.
Qed.

(** C9: deleting the notification records with a non-empty [generated_for]
    twice in a row removes records only the first time: the first call
    reports the number of such records and leaves exactly the others, the
    second call reports zero and leaves the store as it found it. *)
Theorem delivered_batch_cleanup_idempotent (r : Run) :
  let first := delete_many (Mongo.GeneratedForNe []) r in
  let second := delete_many (Mongo.GeneratedForNe []) first.2 in
  first.1 = Ret (length (filter (λ d, generated_for d ≠ [])
                           (notifications (store r))))
  ∧ notifications (store first.2)
    = filter (λ d, generated_for d = []) (notifications (store r))
  ∧ second.1 = Ret 0%nat
  ∧ store second.2 = store first.2.
Proof.
  unfold delete_many, bind, get_store, put_store, emit, ret.
  cbn -[Mongo.delete_many filter].
  rewrite !mongo_delete_generated_for. cbn -[Mongo.delete_many filter].
  assert (Hclean : Forall (λ d, generated_for d = [])
            (filter (λ d, generated_for d = []) (notifications (store r)))).
  { apply Forall_forall. intros d Hd. by apply list_elem_of_filter in Hd as [? _]. }
  repeat split.
  - rewrite (filter_none (λ d, generated_for d ≠ [])); [done |].
    eapply Forall_impl; [exact Hclean |]. intros d Hd Hne. by apply Hne.
  - by rewrite (filter_all _ _ Hclean).
Qed.

(** ** The run of [main] *)

(** The generator only adds log lines and renderer calls to the trace. *)
Lemma generate_notification_pdfs_events w org_ids key r :
  ∃ num r1 t,
    generate_notification_pdfs w org_ids key r = (Ret num, r1)
    ∧ trace r1 = (trace r ++ t)%list
    ∧ forallb generation_event t = true.
Proof.
  unfold generate_notification_pdfs. generalize 0 as num. revert r.
  induction org_ids as [| org_id org_ids IH]; intros r num; simpl.
  - exists num, r, []. by rewrite app_nil_r.
  - unfold bind, render, get_store, put_store, logging_info, logging_error,
      emit, ret, bind; simpl.
    destruct (generate_notification w _ org_id key)
      as [[was_encrypted results] db']; simpl.
    assert (Hstop : ∀ msg msg' : string,
      ∃ (num0 : Z) (r1 : Run) (t : list Event),
        (Ret (-1),
         {| store := db';
            trace := (((trace r ++ [Log INFO msg])
                       ++ [GenerateNotification org_id true key])
                      ++ [Log ERROR msg'])%list |}) = (Ret num0, r1)
        ∧ trace r1 = (trace r ++ t)%list
        ∧ forallb generation_event t = true).
    { intros msg msg'. eexists _, _, [_; _; _]. split; [reflexivity |].
      simpl. by rewrite <-!app_assoc. }
    assert (Hnext : ∀ (msg msg' : string) n,
      ∃ (num0 : Z) (r1 : Run) (t : list Event),
        generate_loop w key org_ids n
          {| store := db';
             trace := (((trace r ++ [Log INFO msg])
                        ++ [GenerateNotification org_id true key])
                       ++ [Log INFO msg'])%list |} = (Ret num0, r1)
        ∧ trace r1 = (trace r ++ t)%list
        ∧ forallb generation_event t = true).
    { intros msg msg' n.
      edestruct IH as (num0 & r1 & t & -> & Ht & Hall).
      exists num0, r1, ([Log INFO msg; GenerateNotification org_id true key;
                         Log INFO msg'] ++ t)%list.
      split; [done |]. split.
      - rewrite Ht. simpl. by rewrite <-!app_assoc.
      - simpl. exact Hall. }
    destruct was_encrypted; [apply Hnext |].
    destruct results as [res |]; [| apply Hstop].
    destruct (length (results_notifications res) =? 0)%nat;
      [apply Hnext | apply Hstop].
Qed.

Lemma generation_events_rendered_only t :
  forallb generation_event t = true →
  delivery_invoked t = false ∧ deletions t = [] ∧ link_events t = [].
Proof.
  induction t as [| e t IH]; [done |]. simpl.
  intros [He Ht]%andb_prop. destruct (IH Ht) as (IH1 & IH2 & IH3).
  unfold delivery_invoked, deletions, link_events in *.
  destruct e; try done; simpl; by rewrite ?IH1, ?IH2, ?IH3.
Qed.

Lemma generation_keeps_links t :
  forallb generation_event t = true → forallb keeps_links t = true.
Proof.
  induction t as [| e t IH]; [done |]. simpl.
  intros [He Ht]%andb_prop. rewrite (IH Ht). by destruct e.
Qed.

(** Events that are neither a removal nor a link leave every entry as the
    run found it. *)
Lemma entry_now_unchanged w t path :
  forallb keeps_links t = true → entry_now w t path = entry w path.
Proof.
  unfold entry_now. generalize (entry w path) as e.
  induction t as [| ev t IH]; intros e; [done |]. simpl.
  intros [Hev Ht]%andb_prop. rewrite (IH _ Ht). by destruct ev.
Qed.

Lemma entry_now_removed w t path :
  entry_now w (t ++ [Remove path]) path = Absent.
Proof.
  unfold entry_now. rewrite foldl_app. simpl. by rewrite decide_True.
Qed.

(** Symbolic execution of [main] up to the calls of the collaborators. *)
Ltac run_step :=
  cbn -[generate_notification_pdfs Mongo.delete_many pretty path_join
        NOTIFICATION_ARCHIVE_DIR bool_decide upper filter String.append
        entry_now].

Ltac run_main :=
  unfold main, create_output_directories, global_cyhy_org_ids,
    popen_communicate, delete_many, logging_info, logging_error,
    logging_critical, os_path_exists, os_remove, os_symlink,
    bind, emit, get_store, put_store, raise, ret, start;
  run_step.

(** The link step of a run whose generator has returned in state [r1]:
    the entry at the link's path is what the run found, and the cases of
    that entry are split. *)
Ltac run_link w r1 Htrace Hgenev Hentry :=
  rewrite ?(entry_now_unchanged w (trace r1 ++ [_])) by
    (rewrite Htrace, !forallb_app; simpl;
     rewrite (generation_keeps_links _ Hgenev); reflexivity);
  destruct (entry w (path_join NOTIFICATIONS_BASE_DIR
                       "notification_archive/latest")) eqn:Hentry;
  run_step;
  rewrite ?(entry_now_unchanged w (trace r1 ++ [_])) by
    (rewrite Htrace, !forallb_app; simpl;
     rewrite (generation_keeps_links _ Hgenev); reflexivity);
  rewrite ?Hentry;
  run_step;
  rewrite ?entry_now_removed;
  run_step.

(** The delivery branch and the two deletions. *)
Ltac run_delivery w r1 :=
  try (case_bool_decide; run_step;
       [ destruct (communicate w (store r1)) as [[? ?] ?];
         run_step; case_bool_decide; run_step;
         rewrite !mongo_delete_generated_for; run_step;
         rewrite !mongo_delete_ticket_owner; run_step
       | rewrite !mongo_delete_ticket_owner; run_step ]).


(** ** C5: the unbound global *)

(** C5: with the namespace the module builds, [main] never returns 0 and
    never reaches the renderer, the mailer or a deletion: once the logging
    set-up succeeds it raises [NameError] for [cyhy_org_ids] with the store
    untouched, and otherwise it returns 1. *)
Theorem main_unbound_cyhy_org_ids w args db :
  let run := main module_globals w args (start db) in
  run.1 = (if basicConfig w (upper (log_level args))
           then Raise (NameError "cyhy_org_ids") else Ret 1)
  ∧ run.1 ≠ Ret 0
  ∧ rendered (trace run.2) = []
  ∧ delivery_invoked (trace run.2) = false
  ∧ deletions (trace run.2) = []
  ∧ store run.2 = db.
Proof.
  run_main. destruct (basicConfig w (upper (log_level args))); simpl.
  - repeat split; done.
  - repeat split; done.
Qed.


(** ** C10: the ineligible-owner cleanup *)




(** ** What gates delivery and the delivered-batch cleanup *)



(** ** C1, C6: the unknown outcome and the delivery gate *)

(** C1, evaluated: the universe is A and B, the renderer fails in the
    unknown way.  The generator stops at A and returns -1, but [main] reads
    -1 as a true count: it starts the mailer, performs the delivered-batch
    deletion (one record goes) and returns 0. *)
Theorem main_unknown_outcome_still_delivers :
  let w := example_world failing_renderer 0 in
  let run := main {| cyhy_org_ids := Some ["A"; "B"] |} w example_args
               (start db_stamped) in
  (generate_notification_pdfs w ["A"; "B"] "master-key"
     (prepared w example_args db_stamped)).1 = Ret (-1)
  ∧ run.1 = Ret 0
  ∧ rendered (trace run.2) = ["A"]
  ∧ delivery_invoked (trace run.2) = true
  ∧ deletions (trace run.2)
    = [ (Mongo.GeneratedForNe [], 1%nat);
        (Mongo.TicketOwnerNin ["A"; "B"], 1%nat) ]
  ∧ notifications (store run.2) = [].
Proof. vm_compute. repeat split. Qed.

(** C6, evaluated: no artifact was created (the only organization failed in
    the unknown way, nothing succeeded), yet the mailer is started and the
    run does not log that there was nothing to email. *)
Theorem main_delivers_without_success :
  let w := example_world failing_renderer 0 in
  let run := main {| cyhy_org_ids := Some ["A"] |} w example_args
               (start db_three_levels) in
  successes (outcomes w "master-key" ["A"] db_three_levels) = 0%nat
  ∧ (generate_notification_pdfs w ["A"] "master-key"
       (prepared w example_args db_three_levels)).1 = Ret (-1)
  ∧ delivery_invoked (trace run.2) = true
  ∧ logged INFO (trace run.2)
    = [ "A - Starting to create notification PDF";
        "-1 notification PDFs created";
        "Notification emails successfully sent";
        "Deleted 0 notifications from DB (corresponding to those just emailed out)";
        "Deleted 0 notifications from DB (owned by non-CyHy organizations, which do not currently receive notification emails)" ].
Proof. vm_compute. repeat split. Qed.

(** ** C3: a failed delivery *)

(** C3, evaluated: one artifact is created for A, the mailer exits with
    status 1 and the failure is logged; the delivered-batch deletion is
    performed all the same and removes A's stamped record, and the
    ineligible-owner deletion follows. *)
Theorem main_failed_delivery_still_deletes :
  let w := example_world stamping_renderer 1 in
  let run := main {| cyhy_org_ids := Some ["A"] |} w example_args
               (start db_stamped) in
  run.1 = Ret 0
  ∧ delivery_invoked (trace run.2) = true
  ∧ logged ERROR (trace run.2)
    = [ "Failed to email notifications";
        "Stderr report detail: mailer stdoutmailer stderr" ]
  ∧ deletions (trace run.2)
    = [ (Mongo.GeneratedForNe [], 1%nat);
        (Mongo.TicketOwnerNin ["A"], 1%nat) ]
  ∧ notifications (store run.2) = [].
Proof. vm_compute. repeat split. Qed.

(** ** C4: what the generator is given *)

(** C4, evaluated on the three-level store: the resolver would give A, P
    and G, but [main] never calls it.  With the module's own namespace the
    run raises [NameError] before anything is rendered; with the global
    bound to some other list, that list is what the renderer sees. *)
Theorem main_ignores_resolver :
  let w := example_world stamping_renderer 0 in
  let run := main module_globals w example_args (start db_three_levels) in
  let run' := main {| cyhy_org_ids := Some ["X"] |} w example_args
                (start db_three_levels) in
  elements <$> build_notifications_org_list 4 db_three_levels
  = Some ["G"; "A"; "P"]
  ∧ run.1 = Raise (NameError "cyhy_org_ids")
  ∧ rendered (trace run.2) = []
  ∧ rendered (trace run'.2) = ["X"].
Proof. vm_compute. repeat split. Qed.


(** * Further properties of the resolver *)

Lemma ancestor_marked db o x :
  ancestor db o x →
  ∃ d, d ∈ requests db ∧ _id d = x ∧ "CYHY" ∈ report_types d.
Proof.
  induction 1 as [o x (d & Hd & Hid & _ & Hm) | o p x _ _ IH]; eauto.
Qed.

(** X1: the lookup returns under a recursion limit exactly when every chain
    of marked-parent steps leaving [org_id] is shorter than the limit: the
    depth it needs is one more than the longest chain of ancestors. *)
Theorem find_cyhy_parents_depth limit db org_id :
  is_Some (find_cyhy_parents limit db org_id)
  ↔ ∀ l, chain db org_id l → (length l < limit)%nat.
Proof.
  split.
  - intros [X HX] l Hc. by eapply find_cyhy_parents_returns.
  - intros Hshort.
    destruct (find_cyhy_parents limit db org_id) as [X |] eqn:Hfind; [eauto |].
    apply find_cyhy_parents_raises in Hfind as (l & Hlen & Hc).
    specialize (Hshort l Hc). lia.
Qed.

(** X2: some recursion limit lets the lookup return exactly when no
    organization reachable from [org_id] through marked-parent steps is its
    own ancestor. *)
Theorem find_cyhy_parents_returns_iff_cycle_free db org_id :
  (∃ limit X, find_cyhy_parents limit db org_id = Some X)
  ↔ cycle_free db org_id.
Proof.
  split.
  - intros (limit & X & Hfind) x Hreach Hcyc.
    by rewrite (find_cyhy_parents_cycle _ _ x) in Hfind.
  - intros Hfree.
    destruct (find_cyhy_parents_total db org_id (S (length (requests db))))
      as [X HX]; [done | lia |]. eauto.
Qed.

(** X3: a result does not depend on the recursion limit: once the lookup
    returns under a limit, it returns the same set under every larger
    one. *)
Theorem find_cyhy_parents_limit_irrelevant limit limit' db org_id X :
  find_cyhy_parents limit db org_id = Some X →
  (limit ≤ limit')%nat →
  find_cyhy_parents limit' db org_id = Some X.
Proof.
  intros Hfind Hle.
  destruct (find_cyhy_parents limit' db org_id) as [Y |] eqn:Hfind'.
  - f_equal. apply set_eq. intros x.
    by rewrite (find_cyhy_parents_sound _ _ _ _ Hfind'),
               (find_cyhy_parents_sound _ _ _ _ Hfind).
  - apply find_cyhy_parents_raises in Hfind' as (l & Hlen & Hc).
    pose proof (find_cyhy_parents_returns _ _ _ _ _ Hfind Hc). lia.
Qed.

Lemma find_cyhy_parents_limit_irrelevant_witness :
  find_cyhy_parents 3 db_three_levels "A" = Some {[ "P"; "G" ]}
  ∧ (3 ≤ 1000)%nat
  ∧ find_cyhy_parents 1000 db_three_levels "A" = Some {[ "P"; "G" ]}.
Proof.
  assert (H3 : find_cyhy_parents 3 db_three_levels "A" = Some {[ "P"; "G" ]}).
  { vm_compute. reflexivity. }
  split; [exact H3 |]. split; [lia |].
  apply (find_cyhy_parents_limit_irrelevant 3 1000 db_three_levels "A");
    [exact H3 | lia].
Defined.

(** X4: what the lookup returns never contains the organization asked
    about, and every member is the identifier of a request document that
    carries the report-type marker. *)
Theorem find_cyhy_parents_members limit db org_id X :
  find_cyhy_parents limit db org_id = Some X →
  (org_id ∉ X)
  ∧ ∀ x, x ∈ X →
         ∃ d, d ∈ requests db ∧ _id d = x ∧ "CYHY" ∈ report_types d.
Proof.
  intros Hfind. pose proof (find_cyhy_parents_sound _ _ _ _ Hfind) as Hmem.
  split.
  - intros Hself. apply Hmem in Hself.
    by rewrite (find_cyhy_parents_cycle _ _ org_id) in Hfind.
  - intros x Hx. apply Hmem in Hx. by eapply ancestor_marked.
Qed.

Lemma find_cyhy_parents_members_witness :
  find_cyhy_parents 3 db_three_levels "A" = Some {[ "P"; "G" ]}
  ∧ ("A" ∉ ({[ "P"; "G" ]} : gset string))
  ∧ ∀ x, x ∈ ({[ "P"; "G" ]} : gset string) →
         ∃ d, d ∈ requests db_three_levels ∧ _id d = x
              ∧ "CYHY" ∈ report_types d.
Proof.
  assert (H3 : find_cyhy_parents 3 db_three_levels "A" = Some {[ "P"; "G" ]}).
  { vm_compute. reflexivity. }
  split; [exact H3 |].
  apply (find_cyhy_parents_members 3 db_three_levels "A"). exact H3.
Defined.

(** X5: every organization in the resolver's output is the identifier of a
    request document that carries the report-type marker: an unmarked
    ticket owner or an unmarked parent is never returned. *)
Theorem build_notifications_org_list_marked limit db X :
  build_notifications_org_list limit db = Some X →
  ∀ x, x ∈ X →
       ∃ d, d ∈ requests db ∧ _id d = x ∧ "CYHY" ∈ report_types d.
Proof.
  intros Hbuild x Hx.
  apply (build_notifications_org_list_sound _ _ _ Hbuild) in Hx
    as [[_ Hd] | (s & _ & Hanc)]; [done |].
  by eapply ancestor_marked.
Qed.

Lemma build_notifications_org_list_marked_witness :
  build_notifications_org_list 4 db_three_levels = Some {[ "A"; "P"; "G" ]}
  ∧ ∀ x, x ∈ ({[ "A"; "P"; "G" ]} : gset string) →
         ∃ d, d ∈ requests db_three_levels ∧ _id d = x
              ∧ "CYHY" ∈ report_types d.
Proof.
  assert (H4 : build_notifications_org_list 4 db_three_levels
               = Some {[ "A"; "P"; "G" ]}).
  { vm_compute. reflexivity. }
  split; [exact H4 |].
  apply (build_notifications_org_list_marked 4 db_three_levels). exact H4.
Defined.

(** X6: the resolver's output is closed under marked parents: with an
    organization it contains every marked request document that lists the
    organization among its children. *)
Theorem build_notifications_org_list_parent_closed limit db X x p :
  build_notifications_org_list limit db = Some X →
  x ∈ X → parent db x p → p ∈ X.
Proof.
  intros Hbuild Hx Hp.
  pose proof (build_notifications_org_list_sound _ _ _ Hbuild) as Hmem.
  apply Hmem. right. apply Hmem in Hx as [Hs | (s & Hs & Hanc)].
  - exists x. split; [done | by apply tc_once].
  - exists s. split; [done | by eapply tc_r].
Qed.

Lemma build_notifications_org_list_parent_closed_witness :
  build_notifications_org_list 4 db_three_levels = Some {[ "A"; "P"; "G" ]}
  ∧ "P" ∈ ({[ "A"; "P"; "G" ]} : gset string)
  ∧ parent db_three_levels "P" "G"
  ∧ "G" ∈ ({[ "A"; "P"; "G" ]} : gset string).
Proof.
  assert (H4 : build_notifications_org_list 4 db_three_levels
               = Some {[ "A"; "P"; "G" ]}).
  { vm_compute. reflexivity. }
  assert (Hin : "P" ∈ ({[ "A"; "P"; "G" ]} : gset string)).
  { apply (bool_decide_unpack _). vm_compute. exact I. }
  assert (Hp : parent db_three_levels "P" "G").
  { exists {| _id := "G"; report_types := ["CYHY"]; children := ["P"] |}.
    repeat split; apply (bool_decide_unpack _); vm_compute; exact I. }
  split; [exact H4 |]. split; [exact Hin |]. split; [exact Hp |].
  apply (build_notifications_org_list_parent_closed
           4 db_three_levels {[ "A"; "P"; "G" ]} "P" "G");
    [exact H4 | exact Hin | exact Hp].
Defined.

(** X7: when no ticket owner of a notification record is a marked
    organization (in particular when there are no notification records),
    the resolver returns the empty set without a single recursive lookup:
    it does so under every recursion limit, zero included. *)
Theorem build_notifications_org_list_no_seed limit db :
  (∀ s, ¬ seed db s) →
  build_notifications_org_list limit db = Some ∅.
Proof.
  intros Hnone. rewrite build_notifications_org_list_unfold.
  destruct (Mongo.find_id_in _ _ _) as [| d ds] eqn:Hseeds.
  - simpl. f_equal; set_solver.
  - exfalso. apply (Hnone (_id d)), seed_find_id_in.
    exists d. rewrite Hseeds. split; [apply list_elem_of_here | done].
Qed.

Lemma build_notifications_org_list_no_seed_witness :
  (∀ s, ¬ seed {| requests := requests db_three_levels;
                  notifications := [] |} s)
  ∧ build_notifications_org_list 0
      {| requests := requests db_three_levels; notifications := [] |}
    = Some ∅.
Proof.
  assert (Hnone : ∀ s, ¬ seed {| requests := requests db_three_levels;
                                 notifications := [] |} s).
  { intros s [(n & Hn & _) _]. simpl in Hn. by apply elem_of_nil in Hn. }
  split; [exact Hnone |].
  apply (build_notifications_org_list_no_seed 0
           {| requests := requests db_three_levels; notifications := [] |}).
  exact Hnone.
Defined.

(** The resolver reads the two collections only through membership. *)
Section SameDocuments.

Variables db db' : DB.
Hypothesis same_requests : ∀ d, d ∈ requests db ↔ d ∈ requests db'.
Hypothesis same_notifications :
  ∀ n, n ∈ notifications db ↔ n ∈ notifications db'.

Lemma parent_same o p : parent db o p → parent db' o p.
Proof.
  intros (d & Hd & H). exists d. split; [by apply same_requests | done].
Qed.

Lemma ancestor_same o x : ancestor db o x → ancestor db' o x.
Proof.
  induction 1 as [o x Hp | o p x Hp _ IH].
  - apply tc_once. by apply parent_same.
  - apply tc_l with p; [by apply parent_same | done].
Qed.

Lemma chain_same o l : chain db o l → chain db' o l.
Proof.
  induction 1 as [| o p l Hp _ IH]; constructor; auto using parent_same.
Qed.

Lemma seed_same s : seed db s → seed db' s.
Proof.
  intros [(n & Hn & Hown) (d & Hd & H)]. split.
  - exists n. split; [by apply same_notifications | done].
  - exists d. split; [by apply same_requests | done].
Qed.

End SameDocuments.

(** X8: the resolver's output does not depend on the order (or the
    repetition) of the documents in the two collections: on a store with
    the same request documents and the same notification records it returns
    the same set under the same recursion limit. *)
Theorem build_notifications_org_list_order_insensitive limit db db' X :
  (∀ d, d ∈ requests db ↔ d ∈ requests db') →
  (∀ n, n ∈ notifications db ↔ n ∈ notifications db') →
  build_notifications_org_list limit db = Some X →
  build_notifications_org_list limit db' = Some X.
Proof.
  intros Hreq Hnot Hbuild.
  assert (Hreq' : ∀ d, d ∈ requests db' ↔ d ∈ requests db)
    by (intros d; symmetry; apply Hreq).
  assert (Hnot' : ∀ n, n ∈ notifications db' ↔ n ∈ notifications db)
    by (intros n; symmetry; apply Hnot).
  assert (Hsome : is_Some (build_notifications_org_list limit db')).
  { rewrite build_notifications_org_list_unfold in Hbuild |- *.
    destruct (foldl _ _ (Mongo.find_id_in _ _ (requests db)))
      as [acc |] eqn:Hloop; [| done].
    apply loop_calls in Hloop. rewrite Forall_forall in Hloop.
    match goal with
    | |- is_Some (foldl (step ?call ?upd) (Some ?s0) ?l ≫= _) =>
        destruct (loop_returns call upd l s0) as [acc' Hacc'];
          [| rewrite Hacc'; simpl; eauto]
    end.
    apply Forall_forall. intros d' Hd'.
    assert (Hs : seed db (_id d')).
    { apply (seed_same db' db Hreq' Hnot'), seed_find_id_in. eauto. }
    apply seed_find_id_in in Hs as (d & Hd & Hid).
    destruct (Hloop d Hd) as [Y HY]. rewrite Hid in HY.
    destruct (find_cyhy_parents limit db' (_id d')) as [Y' |] eqn:Hfind';
      [eauto |].
    apply find_cyhy_parents_raises in Hfind' as (l & Hlen & Hc).
    apply (chain_same db' db Hreq') in Hc.
    pose proof (find_cyhy_parents_returns _ _ _ _ _ HY Hc). lia. }
  destruct Hsome as [Y HY]. rewrite HY. f_equal. apply set_eq. intros x.
  rewrite (build_notifications_org_list_sound _ _ _ HY),
          (build_notifications_org_list_sound _ _ _ Hbuild).
  split.
  - intros [Hs | (s & Hs & Hanc)].
    + left. by apply (seed_same db' db).
    + right. exists s. split; [by apply (seed_same db' db) |].
      by apply (ancestor_same db' db).
  - intros [Hs | (s & Hs & Hanc)].
    + left. by apply (seed_same db db').
    + right. exists s. split; [by apply (seed_same db db') |].
      by apply (ancestor_same db db').
Qed.

Lemma build_notifications_org_list_order_insensitive_witness :
  (∀ d, d ∈ requests db_three_levels
        ↔ d ∈ requests db_three_levels_reordered)
  ∧ (∀ n, n ∈ notifications db_three_levels
          ↔ n ∈ notifications db_three_levels_reordered)
  ∧ build_notifications_org_list 4 db_three_levels
    = Some {[ "A"; "P"; "G" ]}
  ∧ build_notifications_org_list 4 db_three_levels_reordered
    = Some {[ "A"; "P"; "G" ]}.
Proof.
  assert (Hreq : ∀ d, d ∈ requests db_three_levels
                      ↔ d ∈ requests db_three_levels_reordered).
  { intros d. simpl. rewrite !elem_of_cons, !elem_of_nil. tauto. }
  assert (Hnot : ∀ n, n ∈ notifications db_three_levels
                      ↔ n ∈ notifications db_three_levels_reordered).
  { intros n. simpl. rewrite !elem_of_cons, !elem_of_nil. tauto. }
  assert (H4 : build_notifications_org_list 4 db_three_levels
               = Some {[ "A"; "P"; "G" ]}).
  { vm_compute. reflexivity. }
  split; [exact Hreq |]. split; [exact Hnot |]. split; [exact H4 |].
  apply (build_notifications_org_list_order_insensitive
           4 db_three_levels db_three_levels_reordered);
    [exact Hreq | exact Hnot | exact H4].
Defined.

(** * Further properties of the generator *)

Lemma outcomes_length w key org_ids db :
  length (outcomes w key org_ids db) = length org_ids.
Proof.
  revert db. induction org_ids as [| org_id org_ids IH]; intros db; simpl.
  - done.
  - destruct (generate_notification w db org_id key) as [out db']. simpl.
    by rewrite IH.
Qed.

Lemma generate_loop_first_unknown w key pre org_id post num r ok rest :
  outcomes w key (pre ++ org_id :: post) (store r)
  = (ok ++ UnknownFailure :: rest)%list →
  length ok = length pre →
  Forall (λ o, o ≠ UnknownFailure) ok →
  (generate_loop w key (pre ++ org_id :: post) num r).1 = Ret (-1)
  ∧ rendered (trace (generate_loop w key (pre ++ org_id :: post) num r).2)
    = (rendered (trace r) ++ pre ++ [org_id])%list
  ∧ logged ERROR
      (trace (generate_loop w key (pre ++ org_id :: post) num r).2)
    = (logged ERROR (trace r)
       ++ [org_id +:+ " - Unknown error occurred"])%list.
Proof.
  revert num r ok.
  induction pre as [| p pre IH]; intros num r ok Hout Hlen Hok.
  - destruct ok; [| done]. simpl in Hout |- *.
    unfold bind, render, get_store, put_store, bind; simpl.
    destruct (generate_notification w (store r) org_id key)
      as [[was_encrypted results] db']. simpl in Hout |- *.
    injection Hout as Hclass _.
    destruct was_encrypted; [done |].
    destruct results as [res |].
    + destruct (results_notifications res) as [| n ns]; [done |]. simpl.
      unfold logged, rendered. rewrite !omap_app. simpl.
      by rewrite !app_nil_r.
    + simpl. unfold logged, rendered. rewrite !omap_app. simpl.
      by rewrite !app_nil_r.
  - destruct ok as [| c ok]; [done |]. simpl in Hout, Hlen |- *.
    unfold bind, render, get_store, put_store, bind; simpl.
    destruct (generate_notification w (store r) p key)
      as [[was_encrypted results] db'] eqn:Hgen. simpl in Hout |- *.
    injection Hout as Hclass Hout. injection Hlen as Hlen.
    apply Forall_cons in Hok as [Hc Hok]. subst c.
    destruct was_encrypted; simpl.
    + edestruct (IH (num + 1)) as (-> & -> & ->); [exact Hout | done.. |].
      unfold logged, rendered. simpl. rewrite !omap_app. simpl.
      by rewrite !app_nil_r, <-?app_assoc.
    + destruct results as [res |]; [| done].
      destruct (results_notifications res) as [| n ns]; [| done]. simpl.
      edestruct (IH num) as (-> & -> & ->); [exact Hout | done.. |].
      unfold logged, rendered. simpl. rewrite !omap_app. simpl.
      by rewrite !app_nil_r, <-?app_assoc.
Qed.

(** X9: the generator stops at the first organization whose outcome is an
    unknown failure: it returns -1, has rendered the organizations up to
    and including that one and none after it, and has logged exactly one
    error, naming that organization. *)
Theorem generate_notification_pdfs_stops_at_first_unknown
    w key pre org_id post r ok rest :
  outcomes w key (pre ++ org_id :: post) (store r)
  = (ok ++ UnknownFailure :: rest)%list →
  length ok = length pre →
  Forall (λ o, o ≠ UnknownFailure) ok →
  let run := generate_notification_pdfs w (pre ++ org_id :: post) key r in
  run.1 = Ret (-1)
  ∧ rendered (trace run.2) = (rendered (trace r) ++ pre ++ [org_id])%list
  ∧ logged ERROR (trace run.2)
    = (logged ERROR (trace r)
       ++ [org_id +:+ " - Unknown error occurred"])%list.
Proof.
  intros Hout Hlen Hok. by apply generate_loop_first_unknown with ok rest.
Qed.

Lemma generate_notification_pdfs_stops_at_first_unknown_witness :
  let w := example_world
             (λ db org_id key,
                if decide (org_id = "B") then failing_renderer db org_id key
                else stamping_renderer db org_id key) 0 in
  outcomes w "master-key" (["A"] ++ "B" :: ["Z"]) (store (start db_stamped))
  = ([EncryptedSuccess] ++ UnknownFailure :: [EncryptedSuccess])%list
  ∧ length [EncryptedSuccess] = length ["A"]
  ∧ Forall (λ o, o ≠ UnknownFailure) [EncryptedSuccess]
  ∧ (generate_notification_pdfs w (["A"] ++ "B" :: ["Z"]) "master-key"
       (start db_stamped)).1 = Ret (-1)
  ∧ rendered (trace (generate_notification_pdfs w (["A"] ++ "B" :: ["Z"])
                       "master-key" (start db_stamped)).2)
    = ["A"; "B"].
Proof.
  intros w.
  assert (Hout : outcomes w "master-key" (["A"] ++ "B" :: ["Z"])
                   (store (start db_stamped))
                 = ([EncryptedSuccess] ++ UnknownFailure
                    :: [EncryptedSuccess])%list).
  { vm_compute. reflexivity. }
  assert (Hok : Forall (λ o, o ≠ UnknownFailure) [EncryptedSuccess]).
  { repeat constructor. discriminate. }
  split; [exact Hout |]. split; [reflexivity |]. split; [exact Hok |].
  destruct (generate_notification_pdfs_stops_at_first_unknown
              w "master-key" ["A"] "B" ["Z"] (start db_stamped)
              [EncryptedSuccess] [EncryptedSuccess] Hout eq_refl Hok)
    as (H1 & H2 & _).
  split; [exact H1 | exact H2].
Defined.

(** X10: for a renderer that hands back the pair the script expects, the
    generator returns -1 exactly when the outcome of some organization of
    the list is an unknown failure, and any value it returns lies between
    -1 and the length of the list. *)
Theorem generate_notification_pdfs_fails_iff_unknown w org_ids key r :
  ((generate_notification_pdfs w org_ids key r).1 = Ret (-1)
   ↔ UnknownFailure ∈ outcomes w key org_ids (store r))
  ∧ ∀ num, (generate_notification_pdfs w org_ids key r).1 = Ret num →
           (-1 ≤ num ≤ Z.of_nat (length org_ids))%Z.
Proof.
  unfold generate_notification_pdfs.
  destruct (decide (UnknownFailure ∈ outcomes w key org_ids (store r)))
    as [Hin | Hnot].
  - assert (Hfail : (generate_loop w key org_ids 0 r).1 = Ret (-1)).
    { destruct (list_elem_of_split_l _ _ Hin) as (ok & rest & Hsplit & Hok).
      assert (Hlen : (length ok < length org_ids)%nat).
      { rewrite <-(outcomes_length w key org_ids (store r)), Hsplit.
        rewrite length_app. simpl. lia. }
      destruct (drop (length ok) org_ids) as [| org_id post] eqn:Hdrop.
      { apply (f_equal length) in Hdrop. rewrite length_drop in Hdrop.
        simpl in Hdrop. lia. }
      rewrite <-(take_drop (length ok) org_ids), Hdrop in Hsplit |- *.
      eapply generate_loop_first_unknown; [exact Hsplit | |].
      - rewrite length_take. lia.
      - apply Forall_forall. intros o Ho ->. done. }
    rewrite Hfail. split; [done |]. intros num [= <-]. lia.
  - assert (Hok : Forall (λ o, o ≠ UnknownFailure)
                    (outcomes w key org_ids (store r))).
    { apply Forall_forall. intros o Ho ->. done. }
    destruct (generate_loop_count w key org_ids 0 r Hok) as (Hres & _).
    rewrite Hres. split.
    + split; [| done]. intros [= Hneg]. lia.
    + intros num [= <-].
      pose proof (length_filter (λ o, o = EncryptedSuccess)
                    (outcomes w key org_ids (store r))) as Hle.
      rewrite outcomes_length in Hle. unfold successes. lia.
Qed.

(** * Further properties of the run *)

(** X11: an invalid log level ends the run at once: [main] logs the
    critical message and returns 1 without connecting to the database,
    creating a directory or reading [cyhy_org_ids], and the store is left
    as it was. *)
Theorem main_invalid_log_level g w args db :
  basicConfig w (upper (log_level args)) = false →
  main g w args (start db) =
  (Ret 1,
   {| store := db;
      trace :=
        [ BasicConfig (upper (log_level args));
          Log CRITICAL
            (dquote +:+ log_level args +:+ dquote
             +:+ " is not a valid logging level.  Possible values "
             +:+ "are debug, info, warning, and error.") ] |}).
Proof. intros Hlevel. run_main. by rewrite Hlevel. Qed.

Lemma main_invalid_log_level_witness :
  basicConfig (example_world stamping_renderer 0)
    (upper (log_level {| log_level := "verbose";
                         CYHY_DB_SECTION := "production" |})) = false
  ∧ (main module_globals (example_world stamping_renderer 0)
       {| log_level := "verbose"; CYHY_DB_SECTION := "production" |}
       (start db_stamped)).1 = Ret 1.
Proof.
  split; [vm_compute; reflexivity |].
  rewrite (main_invalid_log_level module_globals
             (example_world stamping_renderer 0)
             {| log_level := "verbose"; CYHY_DB_SECTION := "production" |}
             db_stamped); [reflexivity |].
  vm_compute. reflexivity.
Defined.





(** X15: a run keeps its phases apart: the trace splits into a first part,
    in which the mailer is not started and nothing is deleted, and a second
    part, in which nothing is rendered any more. *)
Theorem main_renders_before_delivery g w args db ids :
  cyhy_org_ids g = Some ids →
  basicConfig w (upper (log_level args)) = true →
  ∃ generation rest,
    trace (main g w args (start db)).2 = (generation ++ rest)%list
    ∧ rendered (trace (main g w args (start db)).2) = rendered generation
    ∧ delivery_invoked generation = false
    ∧ deletions generation = []
    ∧ delivery_invoked (trace (main g w args (start db)).2)
      = delivery_invoked rest
    ∧ deletions (trace (main g w args (start db)).2) = deletions rest.
Proof.
  intros Hg Hlevel. run_main. rewrite Hg, Hlevel. run_step.
  match goal with
  | |- context [generate_notification_pdfs w ids ?key ?r] =>
      destruct (generate_notification_pdfs_events w ids key r)
        as (num & r1 & t & Hgen & Htrace & Hgenev);
      rewrite Hgen
  end.
  run_step. cbn [trace] in Htrace.
  run_link w r1 Htrace Hgenev Hentry.
  all: run_delivery w r1.
  all: apply generation_events_rendered_only in Hgenev as (Hpop & Hdel & _).
  all: exists (trace r1).
  all: rewrite <-?app_assoc; eexists; split; [reflexivity |].
  all: unfold rendered, delivery_invoked, deletions in *.
  all: repeat split.
  all: rewrite ?Htrace, ?omap_app, ?existsb_app, ?Hpop, ?Hdel.
  all: simpl; rewrite ?app_nil_r; done.
Qed.

Lemma main_renders_before_delivery_witness :
  cyhy_org_ids {| cyhy_org_ids := Some ["A"] |} = Some ["A"]
  ∧ basicConfig (example_world stamping_renderer 0)
      (upper (log_level example_args)) = true
  ∧ ∃ generation rest,
      trace (main {| cyhy_org_ids := Some ["A"] |}
               (example_world stamping_renderer 0) example_args
               (start db_stamped)).2 = (generation ++ rest)%list
      ∧ rendered (trace (main {| cyhy_org_ids := Some ["A"] |}
                           (example_world stamping_renderer 0) example_args
                           (start db_stamped)).2) = rendered generation
      ∧ delivery_invoked generation = false
      ∧ deletions generation = []
      ∧ delivery_invoked
          (trace (main {| cyhy_org_ids := Some ["A"] |}
                    (example_world stamping_renderer 0) example_args
                    (start db_stamped)).2)
        = delivery_invoked rest
      ∧ deletions (trace (main {| cyhy_org_ids := Some ["A"] |}
                            (example_world stamping_renderer 0) example_args
                            (start db_stamped)).2) = deletions rest.
Proof.
  split; [reflexivity |]. split; [vm_compute; reflexivity |].
  apply (main_renders_before_delivery {| cyhy_org_ids := Some ["A"] |}
           (example_world stamping_renderer 0) example_args db_stamped ["A"]).
  - reflexivity.
  - vm_compute. reflexivity.
Defined.

(** X18: when the link step does not go through (a dangling link or a
    directory at the link's path), the run has generated its artifacts and
    then raises [OSError]: the mailer is not started, nothing is deleted,
    and the store is the one the generator left. *)
Theorem main_link_failure g w args db ids :
  cyhy_org_ids g = Some ids →
  basicConfig w (upper (log_level args)) = true →
  replaceable (entry w latest_notifications) = false →
  ∃ num r1,
    generate_notification_pdfs w ids (report_key w (CYHY_DB_SECTION args))
      (prepared w args db) = (Ret num, r1)
    ∧ let run := main g w args (start db) in
      (∃ errno, run.1 = Raise (OSError errno))
      ∧ store run.2 = store r1
      ∧ rendered (trace run.2) = rendered (trace r1)
      ∧ delivery_invoked (trace run.2) = false
      ∧ deletions (trace run.2) = [].
Proof.
  intros Hg Hlevel Hlink. unfold latest_notifications in Hlink.
  destruct (generate_notification_pdfs_events w ids
              (report_key w (CYHY_DB_SECTION args)) (prepared w args db))
    as (num & r1 & t & Hgen & Htrace & Hgenev).
  exists num, r1. split; [done |].
  unfold prepared in Hgen, Htrace. cbn [trace] in Htrace.
  run_main. rewrite Hg, Hlevel. run_step. rewrite Hgen. run_step.
  run_link w r1 Htrace Hgenev Hentry.
  all: try discriminate Hlink.
  all: apply generation_events_rendered_only in Hgenev as (Hpop & Hdel & _).
  all: split; [eauto |]; split; [reflexivity |].
  all: unfold rendered, delivery_invoked, deletions in *.
  all: repeat split.
  all: rewrite ?omap_app, ?existsb_app, ?Htrace, ?omap_app, ?existsb_app.
  all: rewrite ?Hpop, ?Hdel; simpl; rewrite ?app_nil_r; done.
Qed.

Lemma main_link_failure_witness :
  cyhy_org_ids {| cyhy_org_ids := Some ["A"] |} = Some ["A"]
  ∧ basicConfig
      (with_entry (example_world stamping_renderer 0)
         latest_notifications DanglingLink)
      (upper (log_level example_args)) = true
  ∧ replaceable
      (entry (with_entry (example_world stamping_renderer 0)
                latest_notifications DanglingLink)
         latest_notifications) = false
  ∧ ∃ num r1,
      generate_notification_pdfs
        (with_entry (example_world stamping_renderer 0)
           latest_notifications DanglingLink) ["A"]
        (report_key
           (with_entry (example_world stamping_renderer 0)
              latest_notifications DanglingLink)
           (CYHY_DB_SECTION example_args))
        (prepared
           (with_entry (example_world stamping_renderer 0)
              latest_notifications DanglingLink) example_args db_stamped)
      = (Ret num, r1)
      ∧ let run := main {| cyhy_org_ids := Some ["A"] |}
                     (with_entry (example_world stamping_renderer 0)
                        latest_notifications DanglingLink)
                     example_args (start db_stamped) in
        (∃ errno, run.1 = Raise (OSError errno))
        ∧ store run.2 = store r1
        ∧ rendered (trace run.2) = rendered (trace r1)
        ∧ delivery_invoked (trace run.2) = false
        ∧ deletions (trace run.2) = [].
Proof.
  split; [reflexivity |]. split; [vm_compute; reflexivity |].
  split; [vm_compute; reflexivity |].
  apply (main_link_failure {| cyhy_org_ids := Some ["A"] |}
           (with_entry (example_world stamping_renderer 0)
              latest_notifications DanglingLink)
           example_args db_stamped ["A"]).
  - reflexivity.
  - vm_compute. reflexivity.
  - vm_compute. reflexivity.
Defined.

(** * Further properties of the two cleanups *)

Lemma filter_split_length {A} (P : A → Prop) `{∀ x, Decision (P x)}
    (l : list A) :
  (length (filter P l) + length (filter (λ x, ¬ P x) l))%nat = length l.
Proof.
  induction l as [| x l IH]; [done |].
  rewrite !filter_cons. destruct (decide (P x)).
  - rewrite decide_False by tauto. simpl. lia.
  - rewrite decide_True by done. simpl. lia.
Qed.

(** X16: the ineligible-owner cleanup is idempotent as well: run twice in
    a row it deletes records only the first time (it reports how many and
    leaves exactly the records owned inside the universe), and the second
    call reports zero and leaves the store as it found it. *)
Theorem ineligible_owner_cleanup_idempotent ids (r : Run) :
  let first := delete_many (Mongo.TicketOwnerNin ids) r in
  let second := delete_many (Mongo.TicketOwnerNin ids) first.2 in
  first.1 = Ret (length (filter (λ d, ticket_owner d ∉ ids)
                           (notifications (store r))))
  ∧ notifications (store first.2)
    = filter (λ d, ticket_owner d ∈ ids) (notifications (store r))
  ∧ requests (store first.2) = requests (store r)
  ∧ second.1 = Ret 0%nat
  ∧ store second.2 = store first.2.
Proof.
  unfold delete_many, bind, get_store, put_store, emit, ret.
  cbn -[Mongo.delete_many filter].
  rewrite !mongo_delete_ticket_owner. cbn -[Mongo.delete_many filter].
  assert (Hclean : Forall (λ d, ticket_owner d ∈ ids)
            (filter (λ d, ticket_owner d ∈ ids) (notifications (store r)))).
  { apply Forall_forall. intros d Hd.
    by apply list_elem_of_filter in Hd as [? _]. }
  repeat split.
  - rewrite (filter_none (λ d, ticket_owner d ∉ ids)); [done |].
    eapply Forall_impl; [exact Hclean |]. intros d Hd Hne. by apply Hne.
  - by rewrite (filter_all _ _ Hclean).
Qed.

(** X17: the two cleanups commute and only ever remove records: in either
    order they leave the same store (the unstamped records owned inside the
    universe), they report the same total of deletions, and that total plus
    the number of records left is the number of records there were. *)
Theorem cleanups_commute ids (r : Run) :
  let a := delete_many (Mongo.GeneratedForNe []) r in
  let ab := delete_many (Mongo.TicketOwnerNin ids) a.2 in
  let b := delete_many (Mongo.TicketOwnerNin ids) r in
  let ba := delete_many (Mongo.GeneratedForNe []) b.2 in
  store ab.2 = store ba.2
  ∧ notifications (store ab.2)
    = filter (λ d, ticket_owner d ∈ ids ∧ generated_for d = [])
        (notifications (store r))
  ∧ ∃ n1 n2 m1 m2 : nat,
      a.1 = Ret n1 ∧ ab.1 = Ret n2 ∧ b.1 = Ret m1 ∧ ba.1 = Ret m2
      ∧ (n1 + n2 = m1 + m2)%nat
      ∧ (n1 + n2 + length (notifications (store ab.2))
         = length (notifications (store r)))%nat.
Proof.
  unfold delete_many, bind, get_store, put_store, emit, ret.
  cbn -[Mongo.delete_many filter].
  rewrite ?mongo_delete_generated_for, ?mongo_delete_ticket_owner.
  cbn -[Mongo.delete_many filter].
  rewrite ?mongo_delete_generated_for, ?mongo_delete_ticket_owner.
  cbn -[Mongo.delete_many filter].
  set (l := notifications (store r)).
  assert (Hcomm : filter (λ d, generated_for d = [])
                    (filter (λ d, ticket_owner d ∈ ids) l)
                  = filter (λ d, ticket_owner d ∈ ids)
                      (filter (λ d, generated_for d = []) l)).
  { rewrite !list_filter_filter. apply list_filter_iff. intros d. tauto. }
  split; [by rewrite Hcomm |]. split; [by rewrite list_filter_filter |].
  eexists _, _, _, _. repeat split.
  - pose proof (filter_split_length (λ d, generated_for d = []) l).
    pose proof (filter_split_length (λ d, ticket_owner d ∈ ids) l).
    pose proof (filter_split_length (λ d, ticket_owner d ∈ ids)
                  (filter (λ d, generated_for d = []) l)).
    pose proof (filter_split_length (λ d, generated_for d = [])
                  (filter (λ d, ticket_owner d ∈ ids) l)).
    rewrite Hcomm in *. lia.
  - pose proof (filter_split_length (λ d, generated_for d = []) l).
    pose proof (filter_split_length (λ d, ticket_owner d ∈ ids)
                  (filter (λ d, generated_for d = []) l)).
    lia.
Qed.
